(** * LambdaDB item store: ingestion worker and storage registry

    A shallow embedding of [store.go]: the worker that labels and appends
    incoming records to the process-wide collection [ITEMS], and the
    save/load functions registered under the format names [bytes],
    [bytesz] and [json], with the bootstrap entry point [loadAtStart].

    The Go program mutates package-level variables, the file system and the
    console, and it can stop in two ways besides returning: [log.Fatal]
    and a run-time panic.  All of this is made explicit by a state monad
    whose results are [Ret], [Fatal] or [Panic]. *)

From Stdlib Require Import ZArith Strings.Byte.
From stdpp Require Import base strings list gmap pretty.

Set Default Proof Using "Type".

(** ** Values shared by every part of the model *)

(** Go's [error] interface: only the message is observable here. *)
Definition error := string.

(** A [*Item]: the nil pointer or the address of a cell of the item heap. *)
Inductive ptr :=
  | nilptr
  | addr (l : nat).

#[global] Instance ptr_eq_dec : EqDecision ptr.
Proof. solve_decision. Defined.

(** An [io.Reader] as far as [ioutil.ReadAll] can tell: the bytes it yields
    and the error it ends with ([None] for a clean end of stream). *)
Record reader := Reader { rdata : list byte; rerr : option error }.

(** [bytes.NewReader(s)] *)
Definition bytes_NewReader (s : list byte) : reader := Reader s None.

(** ** The collaborators of this file *)

(** Modelled from the spec: the record types [Item], [ItemIn] and
    [ModelMaps], their methods ([Shrink], [StoreBitArrayColumns],
    [GeoIndex], [FillIndexes]), the map-store entry points
    ([CreateMapstore], [LoadMapstore]) and the constant [FILENAME] are
    declared in other files of the package.  They are taken as parameters
    with the shape section 6 of the specification gives them: they act on
    the record they are called on and on the package's index and map state
    [Aux]; none of them assigns [ITEMS]. *)
Class Collaborators := {
  Item : Type;
  ItemIn : Type;
  ModelMaps : Type;
  (** index and map-store state owned by the other files of the package *)
  Aux : Type;
  (** [itm.Shrink(label)] *)
  Shrink : ItemIn → nat → Aux → Item * Aux;
  (** [smallItem.StoreBitArrayColumns()] *)
  StoreBitArrayColumns : Item → Aux → Item * Aux;
  (** [smallItem.GeoIndex(label)] *)
  GeoIndex : Item → nat → Aux → Item * Aux;
  (** [CreateMapstore()] *)
  CreateMapstore : Aux → ModelMaps;
  (** [LoadMapstore(maps)] *)
  LoadMapstore : ModelMaps → Aux → Aux;
  (** [ITEMS.FillIndexes()], reading the records the collection points to *)
  FillIndexes : list (option Item) → Aux → Aux;
  (** the zero value of [ModelMaps], as in [Store{}] *)
  ModelMaps_zero : ModelMaps;
  FILENAME : string;
}.

(** [type ItemsIn []*ItemIn]: the worker only tests an entry for nil and
    reads the record behind it. *)
Abbreviation ItemsIn := (list (option ItemIn)).

(** [type Store struct { Items Items; Maps ModelMaps }], as the program
    holds it: a slice of pointers and the maps. *)
Record Store `{Collaborators} := mkStore { Items : list ptr; Maps : ModelMaps }.
Arguments mkStore {_} Items Maps.

(** What a codec sees of a [Store]: the records behind the pointers
    ([None] for a nil entry). *)
Record StoreData `{Collaborators} :=
  mkStoreData { ItemsData : list (option Item); MapsData : ModelMaps }.
Arguments mkStoreData {_} ItemsData MapsData.

(** The packages of Go's standard library the file calls.  Their results
    are parameters; the comments give the Go call each one stands for. *)
Class GoLib `{Collaborators} := {
  (** the state of the file system *)
  FS : Type;
  (** [os.Open(filename)] *)
  os_Open : string → FS → error + reader;
  (** [os.Getwd()], of which only the error is used *)
  os_Getwd : FS → option error;
  (** [os.Create(filename)]: the file system afterwards and the error, if any *)
  os_Create : string → FS → FS * option error;
  (** [f.Write(s)] on the handle [os.Create(filename)] returned *)
  File_Write : string → list byte → FS → FS;
  (** [ioutil.WriteFile(filename, data, 0666)] *)
  ioutil_WriteFile : string → list byte → FS → FS * option error;
  (** [os.Stat(filename)] followed by [fi.Size()] *)
  os_Stat : string → FS → error + Z;
  (** [gzip.NewReader(r)]: an error for a bad header, else the reader of
      the decompressed stream *)
  gzip_NewReader : reader → error + reader;
  (** the bytes a [gzip.Writer] leaves in its buffer after [Write(s)] and
      [Close()], with a [Flush()] in between when the flag is set *)
  gzip_Writer : bool → list byte → list byte;
  (** [gob.NewEncoder(&buf).Encode(s)]: the buffer afterwards and the error *)
  gob_Encode : StoreData → list byte * option error;
  (** [gob.NewDecoder(bytes.NewReader(s)).Decode(&store)] on the zero
      [Store]: what the target holds afterwards and the error *)
  gob_Decode : list byte → StoreData * option error;
  (** [json.Marshal(store)] *)
  json_Marshal : StoreData → list byte * option error;
  (** [json.Unmarshal(s, &store)] on a target that already holds pointers:
      the decoder may write through them and allocate, so it is given the
      item heap and returns it with the target *)
  json_Unmarshal : list byte → list Item → Store → list Item * Store * option error;
}.

Section Program.
Context `{GoLib}.

(** ** Process state *)

(** The package-level variable [ITEMS], the heap of [Item] cells its
    pointers refer to, the collaborators' state, the file system and the
    lines written to the console. *)
Record State := mkState {
  heap : list Item;
  ITEMS : list ptr;
  aux : Aux;
  fs : FS;
  out : list string;
}.

Definition set_heap (h : list Item) (s : State) : State :=
  mkState h (ITEMS s) (aux s) (fs s) (out s).
Definition set_ITEMS (l : list ptr) (s : State) : State :=
  mkState (heap s) l (aux s) (fs s) (out s).
Definition set_aux (a : Aux) (s : State) : State :=
  mkState (heap s) (ITEMS s) a (fs s) (out s).
Definition set_fs (f : FS) (s : State) : State :=
  mkState (heap s) (ITEMS s) (aux s) f (out s).
Definition set_out (o : list string) (s : State) : State :=
  mkState (heap s) (ITEMS s) (aux s) (fs s) o.

(** How a call ends: it returns, the process exits through [log.Fatal],
    or it panics. *)
Inductive outcome (A : Type) :=
  | Ret (a : A) (s : State)
  | Fatal (s : State)
  | Panic (s : State).
Arguments Ret {A} a s.
Arguments Fatal {A} s.
Arguments Panic {A} s.

Definition M (A : Type) : Type := State → outcome A.

#[global] Instance M_ret : MRet M := λ A a s, Ret a s.
#[global] Instance M_bind : MBind M := λ A B k m s,
  match m s with
  | Ret a s' => k a s'
  | Fatal s' => Fatal s'
  | Panic s' => Panic s'
  end.

(** The state a call leaves, however it ended. *)
Definition final {A} (o : outcome A) : State :=
  match o with Ret _ s => s | Fatal s => s | Panic s => s end.

Definition is_Fatal {A} (o : outcome A) : Prop :=
  match o with Fatal _ => True | _ => False end.

(** [func init() { ITEMS = Items{} }] *)
Definition init (s : State) : State := set_ITEMS [] s.

(** *** Primitive steps *)

(** [fmt.Println(msg, err)] and [fmt.Printf(WarningColorN, msg)]: the line
    is appended to the console. *)
Definition Println (msg : string) : M unit :=
  λ s, Ret tt (set_out (out s ++ [msg]) s).

(** [log.Fatal(msg)]: print, then [os.Exit(1)]. *)
Definition log_Fatal {A} (msg : string) : M A :=
  λ s, Fatal (set_out (out s ++ [msg]) s).

(** A run-time panic (index out of range, nil dereference). *)
Definition panic {A} : M A := λ s, Panic s.

(** A call of a collaborator that only touches [Aux]. *)
Definition call {A} (f : Aux → A * Aux) : M A :=
  λ s, let '(a, x) := f (aux s) in Ret a (set_aux x s).

(** A local [Item] variable whose address is taken lives in a new cell. *)
Definition new_Item (v : Item) : M nat :=
  λ s, Ret (length (heap s)) (set_heap (heap s ++ [v]) s).

(** A method call on the [Item] in cell [p]. *)
Definition method (p : nat) (f : Item → Aux → Item * Aux) : M unit :=
  λ s, match heap s !! p with
       | Some v => let '(v', x) := f v (aux s) in
                   Ret tt (set_aux x (set_heap (<[p:=v']> (heap s)) s))
       | None => Panic s
       end.

(** [ITEMS = append(ITEMS, p)] *)
Definition append_ITEMS (p : ptr) : M unit :=
  λ s, Ret tt (set_ITEMS (ITEMS s ++ [p]) s).

(** [ITEMS[i]], which panics out of range. *)
Definition index_ITEMS (i : nat) : M ptr :=
  λ s, match ITEMS s !! i with
       | Some q => Ret q s
       | None => Panic s
       end.

(** ** The ingestion worker *)

(** The body of the inner loop for one entry, from the label before to the
    label after.  Go's [int] label is a [nat] here: it starts at 0 and is
    incremented only after [ITEMS[label]] was read without a panic, so it
    stays below [len(ITEMS)], which is an [int] itself, and cannot wrap. *)
Definition worker_entry (itm : option ItemIn) (label : nat) : M nat :=
  match itm with
  | None => mret label
  | Some i =>
      v ← call (Shrink i label);
      smallItem ← new_Item v;
      method smallItem StoreBitArrayColumns;;
      append_ITEMS (addr smallItem);;
      q ← index_ITEMS label;
      (if decide (q ≠ addr smallItem)
       then log_Fatal "storing item index off"
       else mret tt);;
      method smallItem (λ it, GeoIndex it label);;
      mret (S label)
  end.

(** [for _, itm := range items { ... }] *)
Fixpoint worker_batch (items : ItemsIn) (label : nat) : M nat :=
  match items with
  | [] => mret label
  | itm :: rest => label' ← worker_entry itm label; worker_batch rest label'
  end.

(** [for items := range itemChan { ... }], on the batches the channel
    delivers before it is closed. *)
Fixpoint worker_batches (itemChan : list ItemsIn) (label : nat) : M nat :=
  match itemChan with
  | [] => mret label
  | items :: rest => label' ← worker_batch items label; worker_batches rest label'
  end.

(** [func ItemChanWorker(itemChan ItemsChannel)] *)
Definition ItemChanWorker (itemChan : list ItemsIn) : M unit :=
  let label := 0 in
  worker_batches itemChan label;;
  mret tt.

(** ** Codec layer, snapshot and restore *)

(** The record a pointer refers to. *)
Definition deref (h : list Item) (p : ptr) : option Item :=
  match p with
  | nilptr => None
  | addr l => h !! l
  end.

(** The records of a [Store], as an encoder walks them. *)
Definition store_data (h : list Item) (s : Store) : StoreData :=
  mkStoreData (deref h <$> Items s) (Maps s).

(** The records the collection holds, slot by slot. *)
Definition item_values (s : State) : list (option Item) :=
  deref (heap s) <$> ITEMS s.

(** [ITEMS = l] *)
Definition assign_ITEMS (l : list ptr) : M unit :=
  λ s, Ret tt (set_ITEMS l s).

(** The receiver of a method called on [ITEMS]. *)
Definition read_ITEMS : M (list (option Item)) :=
  λ s, Ret (item_values s) s.

Definition snapshot (store : Store) : M StoreData :=
  λ s, Ret (store_data (heap s) store) s.

(** A decoder allocates a cell for every record it decodes. *)
Fixpoint new_Items (vs : list (option Item)) : M (list ptr) :=
  match vs with
  | [] => mret []
  | None :: rest => ps ← new_Items rest; mret (nilptr :: ps)
  | Some v :: rest => p ← new_Item v; ps ← new_Items rest; mret (addr p :: ps)
  end.

(** Reading and changing the file system. *)
Definition fs_get {A} (f : FS → A) : M A := λ s, Ret (f (fs s)) s.
Definition fs_do {A} (f : FS → FS * A) : M A :=
  λ s, let '(x, a) := f (fs s) in Ret a (set_fs x s).

(** [ioutil.ReadAll(r)] *)
Definition ReadAll (r : reader) : list byte * option error := (rdata r, rerr r).

(** [ioutil.ReadAll(f)] on the [*os.File] that [os.Open] returned: a nil
    file reads nothing and reports [os.ErrInvalid]. *)
Definition ReadAll_File (f : option reader) : list byte * option error :=
  match f with
  | Some r => ReadAll r
  | None => ([], Some "invalid argument")
  end.

(** [if err != nil { fmt.Println(msg, err) }] *)
Definition Println_if (msg : string) (err : option error) : M unit :=
  match err with
  | Some e => Println (msg +:+ " " +:+ e)
  | None => mret tt
  end.

(** [func makeStore() Store] *)
Definition makeStore : M Store :=
  λ s, Ret (mkStore (ITEMS s) (CreateMapstore (aux s))) s.

(** [func restoreStore(store Store)] *)
Definition restoreStore (store : Store) : M unit :=
  assign_ITEMS (Items store);;
  call (λ a, (tt, LoadMapstore (Maps store) a));;
  items ← read_ITEMS;
  call (λ a, (tt, FillIndexes items a)).

(** [func EncodeItems(s Store) []byte] *)
Definition EncodeItems (s : Store) : M (list byte) :=
  d ← snapshot s;
  let '(buf, err) := gob_Encode d in
  Println_if "error encoding" err;;
  mret buf.

(** [func Compress(s []byte) []byte] *)
Definition Compress (s : list byte) : list byte := gzip_Writer false s.

(** [func Decompress(s []byte) []byte].  The error of [gzip.NewReader] is
    dropped; on a bad header the reader is nil and [ioutil.ReadAll]
    dereferences it. *)
Definition Decompress (s : list byte) : M (list byte) :=
  match gzip_NewReader (bytes_NewReader s) with
  | inl _ => panic
  | inr reader =>
      let '(data, err) := ReadAll reader in
      Println_if "Unable to Decompress" err;;
      mret data
  end.

(** [func DecodeToStore(s []byte) Store] *)
Definition DecodeToStore (s : list byte) : M Store :=
  let '(d, err) := gob_Decode s in
  items ← new_Items (ItemsData d);
  let store := mkStore items (MapsData d) in
  Println_if "Unable to Decode" err;;
  mret store.

(** [func WriteToFile(s []byte, filename string)].  After a failed
    [os.Create] the handle is nil and [f.Write] does nothing. *)
Definition WriteToFile (s : list byte) (filename : string) : M unit :=
  err ← fs_do (os_Create filename);
  Println_if "Unable to WriteToFile" err;;
  match err with
  | None => fs_do (λ x, (File_Write filename s x, tt))
  | Some _ => mret tt
  end.

(** [func ReadFromFile(filename string) []byte] *)
Definition ReadFromFile (filename : string) : M (list byte) :=
  r ← fs_get (os_Open filename);
  let '(f, err) := match r with
                   | inl e => (None, Some e)
                   | inr f => (Some f, None)
                   end in
  Println_if "Unable to ReadFromFile" err;;
  let '(data, err) := ReadAll_File f in
  Println_if "Unable to ReadFromFile1" err;;
  mret data.

(** [func saveAsJsonZipped(filename string) (int64, error)] *)
Definition saveAsJsonZipped (filename : string) : M (Z * option error) :=
  store ← makeStore;
  d ← snapshot store;
  let '(itemJSON, _) := json_Marshal d in
  let b := gzip_Writer true itemJSON in
  err ← fs_do (ioutil_WriteFile filename b);
  match err with
  | Some e => mret (0%Z, Some e)
  | None =>
      r ← fs_get (os_Stat filename);
      match r with
      | inl err => mret (0%Z, Some err)
      | inr size => mret (size, None)
      end
  end.

(** [func saveAsBytes(filename string) (int64, error)] *)
Definition saveAsBytes (filename : string) : M (Z * option error) :=
  store ← makeStore;
  data ← EncodeItems store;
  WriteToFile data filename;;
  r ← fs_get (os_Stat filename);
  match r with
  | inl err => mret (0%Z, Some err)
  | inr size => mret (size, None)
  end.

(** [func saveAsBytesCompressed(filename string) (int64, error)] *)
Definition saveAsBytesCompressed (filename : string) : M (Z * option error) :=
  store ← makeStore;
  data ← EncodeItems store;
  let data := Compress data in
  WriteToFile data filename;;
  r ← fs_get (os_Stat filename);
  match r with
  | inl err => mret (0%Z, Some err)
  | inr size => mret (size, None)
  end.

(** [return len(ITEMS), nil] *)
Definition return_len_ITEMS : M (nat * option error) :=
  λ s, Ret (length (ITEMS s), None) s.

(** [func loadAsBytes(filename string) (int, error)] *)
Definition loadAsBytes (filename : string) : M (nat * option error) :=
  d ← ReadFromFile filename;
  store ← DecodeToStore d;
  restoreStore store;;
  return_len_ITEMS.

(** [func loadAsBytesCompressed(filename string) (int, error)] *)
Definition loadAsBytesCompressed (filename : string) : M (nat * option error) :=
  d ← ReadFromFile filename;
  d ← Decompress d;
  store ← DecodeToStore d;
  restoreStore store;;
  return_len_ITEMS.

(** [json.Unmarshal(s, &store)], whose error the caller drops. *)
Definition Unmarshal (s : list byte) (store : Store) : M Store :=
  λ st, let '(h, store', _) := json_Unmarshal s (heap st) store in
        Ret store' (set_heap h st).

(** [func loadAsJsonZipped(filename string) (int, error)] *)
Definition loadAsJsonZipped (filename : string) : M (nat * option error) :=
  r ← fs_get (os_Open filename);
  match r with
  | inl err =>
      err2 ← fs_get os_Getwd;
      match err2 with
      | Some e2 => mret (0, Some e2)
      | None => mret (0, Some err)
      end
  | inr fi =>
      match gzip_NewReader fi with
      | inl err => mret (0, Some err)
      | inr fz =>
          let '(s, err) := ReadAll fz in
          match err with
          | Some e => mret (0, Some e)
          | None =>
              store ← makeStore;
              store ← Unmarshal s store;
              restoreStore store;;
              return_len_ITEMS
          end
      end
  end.

(** ** The storage registry *)

Definition storageFunc : Type := string → M (Z * option error).
Definition retrieveFunc : Type := string → M (nat * option error).

(** The tables [func init()] fills. *)
Definition STORAGEFUNCS : gmap string storageFunc :=
  <["json" := saveAsJsonZipped]>
    (<["bytesz" := saveAsBytesCompressed]> (<["bytes" := saveAsBytes]> ∅)).

Definition RETRIEVEFUNCS : gmap string retrieveFunc :=
  <["json" := loadAsJsonZipped]>
    (<["bytesz" := loadAsBytesCompressed]> (<["bytes" := loadAsBytes]> ∅)).

(** Calling a function value; the nil function panics. *)
Definition call_retrieve (f : option retrieveFunc) (filename : string)
  : M (nat * option error) :=
  match f with
  | Some g => g filename
  | None => panic
  end.

(** [func loadAtStart(storagename string, filename string, indexed bool)].
    Inside the [if !found] block [storagename := "bytes"] declares a new
    variable that lives until the end of the block; the [storagename] read
    after the block is the parameter.  The elapsed time of the last message
    is left out. *)
Definition loadAtStart (storagename filename : string) (indexed : bool) : M unit :=
  let '(retrievefunc, found) :=
    match RETRIEVEFUNCS !! storagename with
    | Some f => (Some f, true)
    | None => (None, false)
    end in
  retrievefunc ←
    (if negb found then
       Println "storage mehod not found, trying with bytes";;
       let storagename := "bytes" in
       mret (RETRIEVEFUNCS !! storagename)
     else mret retrievefunc);
  let filename := FILENAME +:+ "." +:+ storagename in
  let msg := "retrieving with: " +:+ storagename +:+ ", with filename: " +:+ filename in
  Println msg;;
  '(itemsAdded, err) ← call_retrieve retrievefunc filename;
  match err with
  | Some e => log_Fatal ("could not open " +:+ filename +:+ " reason " +:+ e)
  | None => mret tt
  end;;
  let msg := "Loaded in memory amount: " +:+ pretty itemsAdded +:+ " time: " in
  Println msg.

End Program.

Arguments Ret {_ _ A} a s.
Arguments Fatal {_ _ A} s.
Arguments Panic {_ _ A} s.

(** ** A small instance, for concrete runs

    Records are single bytes, the geo index lists (label, record) pairs,
    the file system is an association list, and the codecs put one tag
    byte in front of the records: [g] for gob, [{] for JSON, [0x1f] for
    gzip.  Decoding an empty or wrongly tagged input fails and leaves the
    target as it was.  The JSON decoder works as [encoding/json] does on a
    slice of pointers: element [i] of the document is decoded into the
    record that slot [i] of the target points to, and into a new record
    when that slot is nil or the target has no such slot. *)
Module Demo.

Definition index_of (items : list (option byte)) : list (nat * byte) :=
  omap id (imap (λ i o, pair i <$> o) items).

Definition collaborators : Collaborators := {|
  Item := byte;
  ItemIn := byte;
  ModelMaps := unit;
  Aux := list (nat * byte);
  Shrink := λ x _ a, (x, a);
  StoreBitArrayColumns := λ it a, (it, a);
  GeoIndex := λ it label a, (it, a ++ [(label, it)]);
  CreateMapstore := λ _, tt;
  LoadMapstore := λ _ a, a;
  FillIndexes := λ items _, index_of items;
  ModelMaps_zero := tt;
  FILENAME := "items";
|}.
#[local] Existing Instance collaborators.

Definition files : Type := list (string * list byte).

Fixpoint file (filename : string) (x : files) : option (list byte) :=
  match x with
  | [] => None
  | (n, d) :: rest => if String.eqb n filename then Some d else file filename rest
  end.

Definition open (filename : string) (x : files) : error + reader :=
  match file filename x with
  | Some d => inr (Reader d None)
  | None => inl ("open " +:+ filename +:+ ": no such file or directory")
  end.

Definition stat (filename : string) (x : files) : error + Z :=
  match file filename x with
  | Some d => inr (Z.of_nat (length d))
  | None => inl ("stat " +:+ filename +:+ ": no such file or directory")
  end.

Definition gunzip (r : reader) : error + reader :=
  match rdata r with
  | [] => inl "EOF"
  | x1f :: d => inr (Reader d (rerr r))
  | _ => inl "gzip: invalid header"
  end.

(** All records when no entry is nil. *)
Fixpoint present (items : list (option byte)) : option (list byte) :=
  match items with
  | [] => Some []
  | None :: _ => None
  | Some b :: rest => cons b <$> present rest
  end.

Definition encode (tag : byte) (d : StoreData) : list byte * option error :=
  match present (ItemsData d) with
  | Some bs => (tag :: bs, None)
  | None => ([], Some "nil element")
  end.

Definition gob_decode (s : list byte) : StoreData * option error :=
  match s with
  | [] => (mkStoreData [] tt, Some "EOF")
  | x67 :: bs => (mkStoreData (Some <$> bs) tt, None)
  | _ => (mkStoreData [] tt, Some "gob: unknown type id")
  end.

(** The elements [bs] decoded into the slots of the target, on the heap
    [h]: the heap afterwards and the pointers of the decoded slice. *)
Fixpoint decode_into (bs : list byte) (slots : list ptr) (h : list byte)
  : list byte * list ptr :=
  match bs with
  | [] => (h, [])
  | b :: rest =>
      match slots with
      | addr p :: slots' =>
          if p <? length h
          then let '(h', ps) := decode_into rest slots' (<[p:=b]> h) in
               (h', addr p :: ps)
          else let '(h', ps) := decode_into rest slots' (h ++ [b]) in
               (h', addr (length h) :: ps)
      | _ =>
          let '(h', ps) := decode_into rest (tail slots) (h ++ [b]) in
          (h', addr (length h) :: ps)
      end
  end.

Definition json_decode (s : list byte) (h : list byte) (target : Store)
  : list byte * Store * option error :=
  match s with
  | [] => (h, target, Some "unexpected end of JSON input")
  | x7b :: bs =>
      let '(h', ps) := decode_into bs (Items target) h in
      (h', mkStore ps tt, None)
  | _ => (h, target, Some "invalid character")
  end.

Definition golib : GoLib := {|
  FS := files;
  os_Open := open;
  os_Getwd := λ _, None;
  os_Create := λ filename x, ((filename, []) :: x, None);
  File_Write := λ filename s x, (filename, s) :: x;
  ioutil_WriteFile := λ filename s x, ((filename, s) :: x, None);
  os_Stat := stat;
  gzip_NewReader := gunzip;
  gzip_Writer := λ _ s, x1f :: s;
  gob_Encode := encode x67;
  gob_Decode := gob_decode;
  json_Marshal := encode x7b;
  json_Unmarshal := json_decode;
|}.
#[local] Existing Instance golib.

(** A process right after [init], with no file on disk. *)
Definition fresh : State := mkState [] [] [] [] [].

(** A process that holds two records, [a] and [b], and has the snapshot
    [c], [d], [e] on disk in each of the three formats. *)
Definition busy : State :=
  mkState [x61; x62] [addr 0; addr 1] [(0, x61); (1, x62)]
    [("items.bytes", [x67; x63; x64; x65]);
     ("items.bytesz", [x1f; x67; x63; x64; x65]);
     ("items.json", [x1f; x7b; x63; x64; x65])] [].

End Demo.

(** ** The small instance on a disk that cannot be written

    [os.Create] and [ioutil.WriteFile] fail and change nothing; reading
    and [os.Stat] work as before. *)
Module ReadOnly.
Import Demo.
#[local] Existing Instance collaborators.

Definition golib : GoLib := {|
  FS := files;
  os_Open := open;
  os_Getwd := λ _, None;
  os_Create := λ filename x, (x, Some ("open " +:+ filename +:+ ": permission denied"));
  File_Write := λ filename s x, x;
  ioutil_WriteFile := λ filename s x,
    (x, Some ("open " +:+ filename +:+ ": permission denied"));
  os_Stat := stat;
  gzip_NewReader := gunzip;
  gzip_Writer := λ _ s, x1f :: s;
  gob_Encode := encode x67;
  gob_Decode := gob_decode;
  json_Marshal := encode x7b;
  json_Unmarshal := json_decode;
|}.
#[local] Existing Instance golib.

(** One record in memory, and an older five-byte file [out] on disk. *)
Definition stale : State :=
  mkState [x61] [addr 0] [(0, x61)] [("out", [x67; x63; x64; x65; x66])] [].

End ReadOnly.

(** ** Properties of states and runs *)

Section Properties.
Context `{GoLib}.

(** No pointer of the collection dangles: every address it holds is a cell
    of the heap, as the Go run time guarantees. *)
Definition valid_ptr (h : list Item) (p : ptr) : Prop :=
  match p with
  | nilptr => True
  | addr l => l < length h
  end.

Definition wf (s : State) : Prop := Forall (valid_ptr (heap s)) (ITEMS s).

(** The non-nil entries of a batch, in order. *)
Definition non_nil (items : ItemsIn) : list ItemIn := omap id items.

(** The nil entries of a batch. *)
Definition nils (items : ItemsIn) : ItemsIn := filter (λ o, o = None) items.

(** [it] is the record the worker makes of the input [x] under label [L]:
    [Shrink] with that label, then the bit-array columns, then the geo
    index entry for the label. *)
Definition assigned (x : ItemIn) (L : nat) (it : Item) : Prop :=
  ∃ a0 a1 a2,
    it = (GeoIndex (StoreBitArrayColumns (Shrink x L a0).1 a1).1 L a2).1.

(** What holds between two entries of a worker that found the heap with
    [n0] cells and the collection empty, after the inputs [xs]. *)
Record worker_inv (n0 : nat) (xs : list ItemIn) (s : State) : Prop := {
  inv_ITEMS : ITEMS s = addr <$> seq n0 (length xs);
  inv_heap : length (heap s) = n0 + length xs;
  inv_cells : ∀ L x, xs !! L = Some x →
    ∃ it, heap s !! (n0 + L) = Some it ∧ assigned x L it;
}.

(** A call returns and leaves the collection, its records and the index
    state alone. *)
Definition frame {A} (m : M A) : Prop :=
  ∀ s, ∃ a s', m s = Ret a s' ∧
               ITEMS s' = ITEMS s ∧ heap s' = heap s ∧ aux s' = aux s.

(** The pointers [new_Items] returns when the heap has [n] cells. *)
Fixpoint ptrs_from (n : nat) (vs : list (option Item)) : list ptr :=
  match vs with
  | [] => []
  | None :: rest => nilptr :: ptrs_from n rest
  | Some _ :: rest => addr n :: ptrs_from (S n) rest
  end.

(** The bytes [ReadFromFile] returns: the content read, or nothing when
    the file cannot be opened. *)
Definition file_bytes (filename : string) (x : FS) : list byte :=
  match os_Open filename x with
  | inl _ => []
  | inr f => rdata f
  end.

(** The lines [ReadFromFile] prints. *)
Definition read_complaints (filename : string) (x : FS) : list string :=
  match os_Open filename x with
  | inl e => ["Unable to ReadFromFile " +:+ e;
              "Unable to ReadFromFile1 invalid argument"]
  | inr f => match rerr f with
             | Some e => ["Unable to ReadFromFile1 " +:+ e]
             | None => []
             end
  end.

(** The line [Println_if] prints. *)
Definition complaint (msg : string) (err : option error) : list string :=
  match err with
  | Some e => [msg +:+ " " +:+ e]
  | None => []
  end.

(** The three registered formats, the names they are registered under and
    the functions the two tables give them. *)
Inductive format := bytes | bytesz | json.

Definition format_name (f : format) : string :=
  match f with
  | bytes => "bytes"
  | bytesz => "bytesz"
  | json => "json"
  end.

Definition load (f : format) : retrieveFunc :=
  match f with
  | bytes => loadAsBytes
  | bytesz => loadAsBytesCompressed
  | json => loadAsJsonZipped
  end.

Definition save (f : format) : storageFunc :=
  match f with
  | bytes => saveAsBytes
  | bytesz => saveAsBytesCompressed
  | json => saveAsJsonZipped
  end.

(** The heap cells a slice of pointers refers to, nil entries left out. *)
Definition cells (l : list ptr) : list nat :=
  omap (λ p, match p with nilptr => None | addr c => Some c end) l.

(** The file [filename] holds the records [items] in format [f]: it
    opens, reads (and for [bytesz] and [json] decompresses) without an
    error, and its bytes decode without an error to a store with these
    records.  The [json] decoder writes into the records of its target, so
    for [json] this is asked of every target whose pointers are cells of
    the heap and no two of which are the same cell, as in a collection the
    worker or a binary load has built. *)
Definition file_holds (f : format) (filename : string) (x : FS)
    (items : list (option Item)) : Prop :=
  match f with
  | bytes =>
      ∃ data d, os_Open filename x = inr (Reader data None) ∧
                gob_Decode data = (d, None) ∧ ItemsData d = items
  | bytesz =>
      ∃ data raw d, os_Open filename x = inr (Reader data None) ∧
                    gzip_NewReader (bytes_NewReader data) = inr (Reader raw None) ∧
                    gob_Decode raw = (d, None) ∧ ItemsData d = items
  | json =>
      ∃ fi raw, os_Open filename x = inr fi ∧
                gzip_NewReader fi = inr (Reader raw None) ∧
                ∀ h target,
                  Forall (valid_ptr h) (Items target) →
                  NoDup (cells (Items target)) →
                  ∃ h' store,
                    json_Unmarshal raw h target = (h', store, None) ∧
                    deref h' <$> Items store = items
  end.

(** What [loadAtStart] does from the line that derives the file name on,
    for the load function and the storage name it has at that point. *)
Definition load_and_report (retrievefunc : option retrieveFunc)
    (storagename : string) : M unit :=
  let filename := FILENAME +:+ "." +:+ storagename in
  Println ("retrieving with: " +:+ storagename +:+ ", with filename: " +:+ filename);;
  '(itemsAdded, err) ← call_retrieve retrievefunc filename;
  match err with
  | Some e => log_Fatal ("could not open " +:+ filename +:+ " reason " +:+ e)
  | None => mret tt
  end;;
  Println ("Loaded in memory amount: " +:+ pretty itemsAdded +:+ " time: ").

(** The fallback as the specification words it: the [bytes] load function,
    called on [<base>.bytes]. *)
Definition fallback_as_specified : M unit :=
  Println "storage mehod not found, trying with bytes";;
  load_and_report (Some loadAsBytes) "bytes".

(** The file system [WriteToFile] leaves: the bytes are written only when
    [os.Create] gave a handle. *)
Definition written (filename : string) (data : list byte) (x : FS) : FS :=
  let '(x1, err) := os_Create filename x in
  match err with
  | None => File_Write filename data x1
  | Some _ => x1
  end.

(** What the last lines of a save function return on a file system. *)
Definition stat_result (filename : string) (x : FS) : Z * option error :=
  match os_Stat filename x with
  | inl err => (0%Z, Some err)
  | inr size => (size, None)
  end.

(** The snapshot [makeStore] takes in a state, as an encoder walks it. *)
Definition snapshot_data (s : State) : StoreData :=
  store_data (heap s) (mkStore (ITEMS s) (CreateMapstore (aux s))).

Definition is_Panic {A} (o : outcome A) : Prop :=
  match o with Panic _ => True | _ => False end.

(** From [s] to [s'] the collection and the heap were only extended at the
    end, and the file system was not written. *)
Definition grows (s s' : State) : Prop :=
  ITEMS s `prefix_of` ITEMS s' ∧ heap s `prefix_of` heap s' ∧ fs s' = fs s.

End Properties.

(** * Theorems *)

(** ** Running the monad *)

Section MonadFacts.
Context `{GoLib}.

Lemma bind_Ret {A B} (m : M A) (k : A → M B) s a s' :
  m s = Ret a s' → (m ≫= k) s = k a s'.
Proof. intros E. unfold mbind, M_bind. by rewrite E. Qed.

Lemma bind_Fatal {A B} (m : M A) (k : A → M B) s s' :
  m s = Fatal s' → (m ≫= k) s = Fatal s'.
Proof. intros E. unfold mbind, M_bind. by rewrite E. Qed.

Lemma bind_inv_Ret {A B} (m : M A) (k : A → M B) s b s'' :
  (m ≫= k) s = Ret b s'' → ∃ a s', m s = Ret a s' ∧ k a s' = Ret b s''.
Proof.
  unfold mbind, M_bind. destruct (m s) as [a s'| |]; [eauto | done | done].
Qed.

End MonadFacts.

(** Unfolds the binds and the primitive steps of a run. *)
Ltac run :=
  unfold mbind, M_bind, mret, M_ret, call, new_Item, method, append_ITEMS,
    index_ITEMS, log_Fatal, panic, Println, assign_ITEMS, read_ITEMS,
    snapshot, fs_get, fs_do, makeStore, return_len_ITEMS,
    set_heap, set_ITEMS, set_aux, set_fs, set_out; simpl.

(** ** The ingestion worker *)

Section WorkerFacts.
Context `{GoLib}.

Lemma worker_entry_nil label s : worker_entry None label s = Ret label s.
Proof. done. Qed.

(** What one non-nil entry does, step by step: the new cell is the next
    heap address; the identity check passes exactly when the slot at
    [label] holds that address. *)
Lemma worker_entry_non_nil i label s :
  let p := length (heap s) in
  let '(v, a0) := Shrink i label (aux s) in
  let '(v1, a1) := StoreBitArrayColumns v a0 in
  let '(v2, a2) := GeoIndex v1 label a1 in
  worker_entry (Some i) label s =
    match (ITEMS s ++ [addr p]) !! label with
    | None => Panic (mkState (heap s ++ [v1]) (ITEMS s ++ [addr p]) a1 (fs s) (out s))
    | Some q =>
        if decide (q ≠ addr p)
        then Fatal (mkState (heap s ++ [v1]) (ITEMS s ++ [addr p]) a1 (fs s)
                      (out s ++ ["storing item index off"]))
        else Ret (S label)
               (mkState (heap s ++ [v2]) (ITEMS s ++ [addr p]) a2 (fs s) (out s))
    end.
Proof.
  intros p. subst p. unfold worker_entry. run.
  destruct (Shrink i label (aux s)) as [v a0]. simpl.
  rewrite lookup_app_r by lia. rewrite Nat.sub_diag. simpl.
  destruct (StoreBitArrayColumns v a0) as [v1 a1] eqn:E1. simpl.
  destruct (GeoIndex v1 label a1) as [v2 a2] eqn:E2.
  assert (Hins : ∀ w u, <[length (heap s) := w]> (heap s ++ [u]) = heap s ++ [w]).
  { intros w u. rewrite insert_app_r_alt by lia. by rewrite Nat.sub_diag. }
  rewrite Hins.
  destruct ((ITEMS s ++ [addr (length (heap s))]) !! label) as [q|]; simpl; [|done].
  destruct (decide (q ≠ addr (length (heap s)))); simpl; [done|].
  rewrite lookup_app_r by lia. rewrite Nat.sub_diag. simpl.
  rewrite E2. simpl. by rewrite Hins.
Qed.

(** The two loops run as one loop over the concatenated batches. *)
Lemma worker_batch_app items1 items2 label s :
  worker_batch (items1 ++ items2) label s =
  (worker_batch items1 label ≫= worker_batch items2) s.
Proof.
  revert label s. induction items1 as [|itm rest IH]; intros label s; [done|].
  simpl. unfold mbind, M_bind in *.
  destruct (worker_entry itm label s); [apply IH | done | done].
Qed.

Lemma worker_batches_concat itemChan label s :
  worker_batches itemChan label s = worker_batch (concat itemChan) label s.
Proof.
  revert label s. induction itemChan as [|items rest IH]; intros label s; [done|].
  simpl. rewrite worker_batch_app. unfold mbind, M_bind.
  destruct (worker_batch items label s); [apply IH | done | done].
Qed.

Lemma worker_batch_all_nil items label s :
  non_nil items = [] → worker_batch items label s = Ret label s.
Proof.
  revert label s. induction items as [|[i|] rest IH]; intros label s E; [done|done|].
  simpl. erewrite bind_Ret by apply worker_entry_nil. by apply IH.
Qed.

(** Whenever a batch is processed to the end, the label and the length of
    the collection have both grown by the number of non-nil entries. *)
Lemma worker_batch_counts items label s label' s' :
  worker_batch items label s = Ret label' s' →
  label' = label + length (non_nil items) ∧
  length (ITEMS s') = length (ITEMS s) + length (non_nil items).
Proof.
  revert label s. induction items as [|[i|] rest IH]; intros label s E.
  - inversion E; subst. simpl. lia.
  - simpl in E. apply bind_inv_Ret in E as (l1 & s1 & E1 & E2).
    pose proof (worker_entry_non_nil i label s) as W. simpl in W.
    destruct (Shrink i label (aux s)) as [v a0].
    destruct (StoreBitArrayColumns v a0) as [v1 a1].
    destruct (GeoIndex v1 label a1) as [v2 a2].
    rewrite W in E1.
    destruct (_ !! label) as [q|]; [|done].
    destruct (decide _); [done|]. inversion E1; subst.
    apply IH in E2 as [-> ->]. simpl. rewrite length_app. simpl. lia.
  - simpl in E. erewrite bind_Ret in E by apply worker_entry_nil.
    apply IH in E as [-> ->]. done.
Qed.

Lemma worker_inv_init s : worker_inv (length (heap s)) [] (init s).
Proof. split; simpl; [done | lia | intros L x E; done]. Qed.

(** Under the invariant the identity check passes and the invariant holds
    again, with the new record in the slot of its label. *)
Lemma worker_entry_inv n0 xs s i :
  worker_inv n0 xs s →
  ∃ s', worker_entry (Some i) (length xs) s = Ret (S (length xs)) s' ∧
        worker_inv n0 (xs ++ [i]) s'.
Proof.
  intros [HI Hh Hc].
  pose proof (worker_entry_non_nil i (length xs) s) as W. simpl in W.
  destruct (Shrink i (length xs) (aux s)) as [v a0] eqn:E0.
  destruct (StoreBitArrayColumns v a0) as [v1 a1] eqn:E1.
  destruct (GeoIndex v1 (length xs) a1) as [v2 a2] eqn:E2.
  assert (Hlen : length (ITEMS s) = length xs).
  { by rewrite HI, length_fmap, length_seq. }
  rewrite lookup_app_r, Hlen, Nat.sub_diag in W by lia. simpl in W.
  destruct (decide (addr (length (heap s)) ≠ addr (length (heap s)))); [done|].
  eexists. split; [exact W|]. split; simpl.
  - rewrite length_app, HI, Hh. simpl. rewrite Nat.add_1_r, seq_S, fmap_app. done.
  - rewrite !length_app. simpl. lia.
  - intros L x Hx. destruct (decide (L < length xs)) as [Hlt|Hge].
    + rewrite lookup_app_l in Hx by done. rewrite lookup_app_l by lia. eauto.
    + rewrite lookup_app_r in Hx by lia.
      destruct (L - length xs) as [|k] eqn:Ek; [|by destruct k].
      inversion Hx; subst x. assert (L = length xs) as -> by lia.
      rewrite lookup_app_r by lia. rewrite Hh, Nat.sub_diag. simpl.
      eexists. split; [done|]. exists (aux s), a0, a1.
      by rewrite E0; simpl; rewrite E1; simpl; rewrite E2.
Qed.

Lemma worker_batch_inv n0 xs s items :
  worker_inv n0 xs s →
  ∃ s', worker_batch items (length xs) s = Ret (length (xs ++ non_nil items)) s' ∧
        worker_inv n0 (xs ++ non_nil items) s'.
Proof.
  revert xs s. induction items as [|[i|] rest IH]; intros xs s Hinv.
  - exists s. simpl. by rewrite app_nil_r.
  - destruct (worker_entry_inv n0 xs s i Hinv) as (s1 & E1 & Hinv1).
    destruct (IH _ _ Hinv1) as (s2 & E2 & Hinv2).
    exists s2.
    replace (xs ++ non_nil (Some i :: rest)) with ((xs ++ [i]) ++ non_nil rest)
      by (unfold non_nil; simpl; by rewrite <- app_assoc).
    simpl. erewrite bind_Ret by exact E1.
    replace (S (length xs)) with (length (xs ++ [i])) by (rewrite length_app; simpl; lia).
    done.
  - simpl. erewrite bind_Ret by apply worker_entry_nil. by apply IH.
Qed.

(** With a record already in the collection, the first non-nil entry fails
    the identity check: slot 0 holds an older pointer. *)
Lemma worker_batch_fatal items s :
  wf s → ITEMS s ≠ [] → non_nil items ≠ [] →
  ∃ v a, worker_batch items 0 s =
    Fatal (mkState (heap s ++ [v]) (ITEMS s ++ [addr (length (heap s))]) a
             (fs s) (out s ++ ["storing item index off"])).
Proof.
  intros Hwf Hne. induction items as [|[i|] rest IH]; intros Hnn; [done| |].
  - pose proof (worker_entry_non_nil i 0 s) as W. simpl in W.
    destruct (Shrink i 0 (aux s)) as [v a0].
    destruct (StoreBitArrayColumns v a0) as [v1 a1].
    destruct (GeoIndex v1 0 a1) as [v2 a2].
    exists v1, a1. simpl. apply bind_Fatal. rewrite W.
    unfold wf in Hwf. destruct (ITEMS s) as [|q rest']; [done|]. simpl.
    destruct (decide (q ≠ addr (length (heap s)))) as [|Heq]; [done|].
    apply dec_stable in Heq. subst q.
    apply Forall_cons_1 in Hwf as [Hq _]. simpl in Hq. lia.
  - simpl. erewrite bind_Ret by apply worker_entry_nil. by apply IH.
Qed.

Lemma ItemChanWorker_unfold itemChan s :
  ItemChanWorker itemChan s =
  match worker_batch (concat itemChan) 0 s with
  | Ret _ s' => Ret tt s'
  | Fatal s' => Fatal s'
  | Panic s' => Panic s'
  end.
Proof.
  unfold ItemChanWorker, mbind, M_bind. by rewrite worker_batches_concat.
Qed.

End WorkerFacts.

Section WorkerClaims.
Context `{GoLib}.

Lemma non_nil_nils_length (items : ItemsIn) :
  length (non_nil items) + length (nils items) = length items.
Proof.
  unfold non_nil, nils. induction items as [|[i|] rest IH]; [done| |].
  - rewrite filter_cons_False by done. simpl. f_equal. exact IH.
  - rewrite filter_cons_True by done. simpl. rewrite Nat.add_succ_r. f_equal. exact IH.
Qed.

(** C1 (label/slot identity).  Let a worker start on an empty collection
    (any heap, index state and file system) and process any sequence of
    batches.  It returns, its label counter has counted the non-nil
    records from 0, the collection has one entry per label, and for every
    label [L] below the count the entry at index [L] points to the record
    made of the [L]-th non-nil input under label [L]. *)
Theorem label_slot_identity (itemChan : list ItemsIn) (s : State) :
  let xs := non_nil (concat itemChan) in
  ∃ s',
    worker_batches itemChan 0 (init s) = Ret (length xs) s' ∧
    ItemChanWorker itemChan (init s) = Ret tt s' ∧
    length (ITEMS s') = length xs ∧
    ∀ L, L < length xs →
      ∃ x p it, xs !! L = Some x ∧ ITEMS s' !! L = Some (addr p) ∧
                heap s' !! p = Some it ∧ assigned x L it.
Proof.
  intros xs.
  destruct (worker_batch_inv _ [] (init s) (concat itemChan) (worker_inv_init s))
    as (s' & E & [HI Hh Hc]).
  simpl in E, HI, Hh, Hc. fold xs in E, HI, Hh, Hc.
  exists s'. split; [by rewrite worker_batches_concat|].
  split; [by rewrite ItemChanWorker_unfold, E|].
  split; [by rewrite HI, length_fmap, length_seq|].
  intros L HL. destruct (lookup_lt_is_Some_2 xs L HL) as [x Hx].
  destruct (Hc L x Hx) as (it & Hit & Ha).
  exists x, (length (heap s) + L), it. repeat split; try done.
  rewrite HI, list_lookup_fmap, lookup_seq_lt by done. done.
Qed.

(** C7 (skip semantics).  A batch with [K] non-nil and [nulls] nil entries
    has [K + nulls] entries; whenever the worker processes it to the end,
    from any state and label, the label and the length of the collection
    have both grown by exactly [K]; and a worker started on an empty
    collection does process every batch of its channel to the end. *)
Theorem skip_semantics (items : ItemsIn) :
  let K := length (non_nil items) in
  let nulls := length (nils items) in
  K + nulls = length items ∧
  (∀ label s label' s',
     worker_batch items label s = Ret label' s' →
     label' = label + K ∧ length (ITEMS s') = length (ITEMS s) + K) ∧
  (∀ (itemChan : list ItemsIn) s,
     ∃ label s1 s2,
       worker_batches itemChan 0 (init s) = Ret label s1 ∧
       worker_batch items label s1 = Ret (label + K) s2 ∧
       length (ITEMS s2) = length (ITEMS s1) + K).
Proof.
  intros K nulls. split; [apply non_nil_nils_length|].
  split; [intros label s label' s'; apply worker_batch_counts|].
  intros itemChan s.
  destruct (worker_batch_inv _ [] (init s) (concat itemChan) (worker_inv_init s))
    as (s1 & E1 & Hinv1).
  destruct (worker_batch_inv _ _ s1 items Hinv1) as (s2 & E2 & _).
  simpl in E1, E2.
  exists (length (non_nil (concat itemChan))), s1, s2.
  rewrite worker_batches_concat. split; [done|].
  rewrite length_app in E2. split; [done|].
  by apply worker_batch_counts in E2 as [_ ?].
Qed.

(** C9 (the worker needs an empty collection).  In a state without
    dangling pointers, the worker ends in [log.Fatal] exactly when the
    collection is non-empty at its start and the channel delivers a non-nil
    record; it then stops at the first such record, whose pointer was
    appended behind the older entries while the label was still 0. *)
Theorem worker_fatal_iff_nonempty (itemChan : list ItemsIn) (s : State) :
  wf s →
  (is_Fatal (ItemChanWorker itemChan s) ↔
     ITEMS s ≠ [] ∧ non_nil (concat itemChan) ≠ []) ∧
  (ITEMS s ≠ [] → non_nil (concat itemChan) ≠ [] →
     ITEMS (final (ItemChanWorker itemChan s)) =
       ITEMS s ++ [addr (length (heap s))] ∧
     out (final (ItemChanWorker itemChan s)) =
       out s ++ ["storing item index off"]).
Proof.
  intros Hwf. rewrite ItemChanWorker_unfold. split; [split|].
  - intros HF. split.
    + intros HE.
      destruct (worker_batch_inv _ [] (init s) (concat itemChan) (worker_inv_init s))
        as (s' & E & _).
      assert (init s = s) as Hs by (destruct s; unfold init, set_ITEMS; simpl in *; by subst).
      rewrite Hs in E. simpl in E. by rewrite E in HF.
    + intros HE. by rewrite worker_batch_all_nil in HF.
  - intros [Hne Hnn].
    destruct (worker_batch_fatal _ s Hwf Hne Hnn) as (v & a & ->). done.
  - intros Hne Hnn.
    destruct (worker_batch_fatal _ s Hwf Hne Hnn) as (v & a & ->). done.
Qed.

End WorkerClaims.

(** ** Codec layer, snapshot and restore: what each function computes *)

Section PersistenceFacts.
Context `{GoLib}.

Lemma set_out_nil s : set_out (out s ++ []) s = s.
Proof. destruct s. unfold set_out. simpl. by rewrite app_nil_r. Qed.

Lemma Println_if_run msg err s :
  Println_if msg err s = Ret tt (set_out (out s ++ complaint msg err) s).
Proof. destruct err; [done|]. cbn [complaint]. by rewrite set_out_nil. Qed.

Lemma ReadFromFile_run filename s :
  ReadFromFile filename s =
  Ret (file_bytes filename (fs s))
      (set_out (out s ++ read_complaints filename (fs s)) s).
Proof.
  unfold ReadFromFile, file_bytes, read_complaints. run.
  destruct (os_Open filename (fs s)) as [e|[data err]]; simpl.
  - by rewrite <- app_assoc.
  - destruct err; simpl; [done|]. rewrite app_nil_r. by destruct s.
Qed.

Lemma length_ptrs_from n vs : length (ptrs_from n vs) = length vs.
Proof.
  revert n. induction vs as [|[v|] rest IH]; intros n; simpl; by rewrite ?IH.
Qed.

Lemma new_Items_run vs s :
  new_Items vs s =
  Ret (ptrs_from (length (heap s)) vs) (set_heap (heap s ++ omap id vs) s).
Proof.
  revert s. induction vs as [|[v|] rest IH]; intros s; simpl.
  - destruct s. unfold set_heap. simpl. by rewrite app_nil_r.
  - run. rewrite IH. simpl. rewrite length_app, Nat.add_1_r, <- app_assoc. done.
  - run. by rewrite IH.
Qed.

(** The pointers a decoder returns refer to the records it decoded, and
    keep doing so when the heap grows. *)
Lemma deref_ptrs_from h vs h' :
  deref (h ++ omap id vs ++ h') <$> ptrs_from (length h) vs = vs.
Proof.
  revert h. induction vs as [|[v|] rest IH]; intros h; simpl; [done| |].
  - f_equal.
    + rewrite lookup_app_r by lia. by rewrite Nat.sub_diag.
    + specialize (IH (h ++ [v])). rewrite length_app, Nat.add_1_r in IH.
      by rewrite <- app_assoc in IH.
  - f_equal. apply IH.
Qed.

(** They are new: none of them is an address the heap already had. *)
Lemma ptrs_from_fresh n vs l : addr l ∈ ptrs_from n vs → n ≤ l.
Proof.
  revert n. induction vs as [|[v|] rest IH]; intros n; simpl.
  - by intros ?%elem_of_nil.
  - intros [E|Hin]%elem_of_cons; [inversion E; lia|]. apply IH in Hin. lia.
  - intros [E|Hin]%elem_of_cons; [done|]. by apply IH.
Qed.

Lemma DecodeToStore_run s0 s :
  DecodeToStore s0 s =
  Ret (mkStore (ptrs_from (length (heap s)) (ItemsData (gob_Decode s0).1))
         (MapsData (gob_Decode s0).1))
      (mkState (heap s ++ omap id (ItemsData (gob_Decode s0).1)) (ITEMS s) (aux s)
         (fs s) (out s ++ complaint "Unable to Decode" (gob_Decode s0).2)).
Proof.
  unfold DecodeToStore. destruct (gob_Decode s0) as [d err]. simpl.
  erewrite bind_Ret by apply new_Items_run.
  erewrite bind_Ret by apply Println_if_run. done.
Qed.

Lemma restoreStore_run store s :
  restoreStore store s =
  Ret tt (mkState (heap s) (Items store)
            (FillIndexes (deref (heap s) <$> Items store)
               (LoadMapstore (Maps store) (aux s)))
            (fs s) (out s)).
Proof. done. Qed.

(** [loadAsBytes] in one equation: whatever the open, the read and the
    decoder report, the collection becomes what the decoder left in its
    target and the error returned is nil. *)
Lemma loadAsBytes_run filename s :
  let data := file_bytes filename (fs s) in
  let d := (gob_Decode data).1 in
  loadAsBytes filename s =
  Ret (length (ItemsData d), None)
      (mkState (heap s ++ omap id (ItemsData d))
         (ptrs_from (length (heap s)) (ItemsData d))
         (FillIndexes (ItemsData d) (LoadMapstore (MapsData d) (aux s)))
         (fs s)
         (out s ++ read_complaints filename (fs s)
                ++ complaint "Unable to Decode" (gob_Decode data).2)).
Proof.
  intros data d. unfold loadAsBytes.
  erewrite bind_Ret by apply ReadFromFile_run.
  erewrite bind_Ret by apply DecodeToStore_run.
  erewrite bind_Ret by apply restoreStore_run.
  unfold return_len_ITEMS. simpl. fold data d.
  rewrite length_ptrs_from, <- app_assoc.
  pose proof (deref_ptrs_from (heap s) (ItemsData d) []) as Hd.
  rewrite app_nil_r in Hd. by rewrite Hd.
Qed.

Lemma loadAsBytes_item_values filename s :
  item_values (final (loadAsBytes filename s)) =
  ItemsData (gob_Decode (file_bytes filename (fs s))).1.
Proof.
  rewrite loadAsBytes_run. unfold item_values. simpl.
  pose proof (deref_ptrs_from (heap s)
    (ItemsData (gob_Decode (file_bytes filename (fs s))).1) []) as Hd.
  by rewrite app_nil_r in Hd.
Qed.

(** [loadAsBytesCompressed] in one equation: a bad gzip header makes
    [Decompress] panic; otherwise it goes the way of [loadAsBytes]. *)
Lemma loadAsBytesCompressed_run filename s :
  loadAsBytesCompressed filename s =
  match gzip_NewReader (bytes_NewReader (file_bytes filename (fs s))) with
  | inl _ => Panic (set_out (out s ++ read_complaints filename (fs s)) s)
  | inr r =>
      let d := (gob_Decode (rdata r)).1 in
      Ret (length (ItemsData d), None)
        (mkState (heap s ++ omap id (ItemsData d))
           (ptrs_from (length (heap s)) (ItemsData d))
           (FillIndexes (ItemsData d) (LoadMapstore (MapsData d) (aux s)))
           (fs s)
           (out s ++ read_complaints filename (fs s)
                  ++ complaint "Unable to Decompress" (rerr r)
                  ++ complaint "Unable to Decode" (gob_Decode (rdata r)).2))
  end.
Proof.
  unfold loadAsBytesCompressed.
  erewrite bind_Ret by apply ReadFromFile_run.
  unfold Decompress.
  destruct (gzip_NewReader _) as [e|r]; [done|].
  unfold ReadAll.
  erewrite bind_Ret; cycle 1.
  { erewrite bind_Ret by apply Println_if_run. done. }
  erewrite bind_Ret by apply DecodeToStore_run.
  erewrite bind_Ret by apply restoreStore_run.
  unfold return_len_ITEMS. simpl.
  rewrite length_ptrs_from, <- !app_assoc.
  pose proof (deref_ptrs_from (heap s) (ItemsData (gob_Decode (rdata r)).1) []) as Hd.
  rewrite app_nil_r in Hd. by rewrite Hd.
Qed.

(** [loadAsJsonZipped] in one equation: the three early returns carry the
    error; past them the decoder's error is dropped and the collection
    becomes what the decoder left in the seeded target. *)
Lemma loadAsJsonZipped_run filename s :
  loadAsJsonZipped filename s =
  match os_Open filename (fs s) with
  | inl err => Ret (0, Some (default err (os_Getwd (fs s)))) s
  | inr fi =>
      match gzip_NewReader fi with
      | inl err => Ret (0, Some err) s
      | inr fz =>
          match rerr fz with
          | Some e => Ret (0, Some e) s
          | None =>
              let r := json_Unmarshal (rdata fz) (heap s)
                         (mkStore (ITEMS s) (CreateMapstore (aux s))) in
              Ret (length (Items r.1.2), None)
                (mkState r.1.1 (Items r.1.2)
                   (FillIndexes (deref r.1.1 <$> Items r.1.2)
                      (LoadMapstore (Maps r.1.2) (aux s)))
                   (fs s) (out s))
          end
      end
  end.
Proof.
  unfold loadAsJsonZipped. run.
  destruct (os_Open filename (fs s)) as [err|fi]; simpl.
  { by destruct (os_Getwd (fs s)). }
  destruct (gzip_NewReader fi) as [err|[raw [e|]]]; simpl; [done|done|].
  unfold Unmarshal. simpl.
  by destruct (json_Unmarshal _ _ _) as [[h store] e].
Qed.

Lemma EncodeItems_run store s :
  EncodeItems store s =
  Ret (gob_Encode (store_data (heap s) store)).1
      (set_out (out s ++ complaint "error encoding"
                           (gob_Encode (store_data (heap s) store)).2) s).
Proof.
  unfold EncodeItems. run.
  destruct (gob_Encode _) as [buf [e|]]; simpl; [done|].
  rewrite app_nil_r. by destruct s.
Qed.

Lemma frame_bind {A B} (m : M A) (k : A → M B) :
  frame m → (∀ a, frame (k a)) → frame (m ≫= k).
Proof.
  intros Hm Hk s. destruct (Hm s) as (a & s1 & E1 & ? & ? & ?).
  destruct (Hk a s1) as (b & s2 & E2 & ? & ? & ?).
  exists b, s2. erewrite bind_Ret by exact E1. repeat split; congruence.
Qed.

Lemma frame_ret {A} (a : A) : frame (mret a).
Proof. intros s. by exists a, s. Qed.

Lemma frame_Println_if msg err : frame (Println_if msg err).
Proof. intros s. rewrite Println_if_run. by eexists _, _. Qed.

Lemma frame_fs_do {A} (f : FS → FS * A) : frame (fs_do f).
Proof. intros s. unfold fs_do. destruct (f (fs s)) as [x a]. by eexists _, _. Qed.

Lemma frame_fs_get {A} (f : FS → A) : frame (fs_get f).
Proof. intros s. by eexists _, _. Qed.

Lemma frame_makeStore : frame makeStore.
Proof. intros s. by eexists _, _. Qed.

Lemma frame_snapshot store : frame (snapshot store).
Proof. intros s. by eexists _, _. Qed.

Lemma frame_EncodeItems store : frame (EncodeItems store).
Proof. intros s. rewrite EncodeItems_run. by eexists _, _. Qed.

Lemma frame_WriteToFile data filename : frame (WriteToFile data filename).
Proof.
  unfold WriteToFile. apply frame_bind; [apply frame_fs_do|]. intros err.
  apply frame_bind; [apply frame_Println_if|]. intros _.
  destruct err; [apply frame_ret | apply frame_fs_do].
Qed.

Lemma frame_Stat filename :
  frame (r ← fs_get (os_Stat filename);
         match r with
         | inl err => mret (0%Z, Some err)
         | inr size => mret (size, None)
         end).
Proof.
  apply frame_bind; [apply frame_fs_get|].
  intros [err|size]; apply frame_ret.
Qed.

(** ** The registry *)

Lemma RETRIEVEFUNCS_load f : RETRIEVEFUNCS !! format_name f = Some (load f).
Proof. by destruct f. Qed.

Lemma STORAGEFUNCS_save f : STORAGEFUNCS !! format_name f = Some (save f).
Proof. by destruct f. Qed.

Lemma RETRIEVEFUNCS_registered name g :
  RETRIEVEFUNCS !! name = Some g → ∃ f, name = format_name f ∧ g = load f.
Proof.
  unfold RETRIEVEFUNCS. intros E.
  apply lookup_insert_Some in E as [[<- <-]|[_ E]]; [by exists json|].
  apply lookup_insert_Some in E as [[<- <-]|[_ E]]; [by exists bytesz|].
  apply lookup_insert_Some in E as [[<- <-]|[_ E]]; [by exists bytes|].
  done.
Qed.

Lemma STORAGEFUNCS_registered name g :
  STORAGEFUNCS !! name = Some g → ∃ f, name = format_name f ∧ g = save f.
Proof.
  unfold STORAGEFUNCS. intros E.
  apply lookup_insert_Some in E as [[<- <-]|[_ E]]; [by exists json|].
  apply lookup_insert_Some in E as [[<- <-]|[_ E]]; [by exists bytesz|].
  apply lookup_insert_Some in E as [[<- <-]|[_ E]]; [by exists bytes|].
  done.
Qed.

(** A registered name takes [loadAtStart] straight to the common tail. *)
Lemma loadAtStart_registered f filename indexed s :
  loadAtStart (format_name f) filename indexed s =
  load_and_report (Some (load f)) (format_name f) s.
Proof. unfold loadAtStart. rewrite RETRIEVEFUNCS_load. done. Qed.

End PersistenceFacts.

(** ** Bootstrap, load and save: the claims *)

Section PersistenceClaims.
Context `{GoLib}.

(** C2 (fallback).  For a storage name that is not registered,
    [loadAtStart] prints the warning and then runs the common tail with
    the [bytes] load function and the name it was called with: the file
    name it derives and passes to [loadAsBytes] is [FILENAME.<name>], not
    [FILENAME.bytes]. *)
Theorem fallback_keeps_requested_name (storagename filename : string)
    (indexed : bool) (s : State) :
  RETRIEVEFUNCS !! storagename = None →
  loadAtStart storagename filename indexed s =
  (Println "storage mehod not found, trying with bytes";;
   load_and_report (Some loadAsBytes) storagename) s.
Proof. intros E. unfold loadAtStart. rewrite E. done. Qed.

(** The error of [os.Open] does reach the caller of [loadAsJsonZipped]. *)
Lemma loadAsJsonZipped_open_error filename s err :
  os_Open filename (fs s) = inl err →
  ∃ e, loadAsJsonZipped filename s = Ret (0, Some e) s.
Proof. intros E. rewrite loadAsJsonZipped_run, E. eauto. Qed.

(** C3 (errors of an ad hoc load).  [loadAsBytes] returns a nil error on
    every file system and every file name; [loadAsBytesCompressed] returns
    a nil error or panics; [loadAsJsonZipped] returns a nil error for every
    file that opens and decompresses, whatever the JSON decoder reports. *)
Theorem load_never_reports_error :
  (∀ filename s, ∃ n s', loadAsBytes filename s = Ret (n, None) s') ∧
  (∀ filename s,
     match loadAsBytesCompressed filename s with
     | Ret (_, err) _ => err = None
     | Fatal _ => False
     | Panic _ => True
     end) ∧
  (∀ filename s fi raw,
     os_Open filename (fs s) = inr fi →
     gzip_NewReader fi = inr (Reader raw None) →
     ∃ n s', loadAsJsonZipped filename s = Ret (n, None) s').
Proof.
  split; [|split].
  - intros filename s. rewrite loadAsBytes_run. eauto.
  - intros filename s. rewrite loadAsBytesCompressed_run.
    by destruct (gzip_NewReader _).
  - intros filename s fi raw E1 E2. rewrite loadAsJsonZipped_run, E1, E2. simpl. eauto.
Qed.

(** With [json], a file that cannot be opened does stop the bootstrap. *)
Lemma loadAtStart_json_open_error filename indexed s err :
  os_Open (FILENAME +:+ "." +:+ "json") (fs s) = inl err →
  is_Fatal (loadAtStart "json" filename indexed s).
Proof.
  intros E. rewrite (loadAtStart_registered json). unfold load_and_report.
  unfold mbind, M_bind, Println, call_retrieve, load. simpl.
  rewrite loadAsJsonZipped_run. simpl. unfold set_out. simpl.
  rewrite E. done.
Qed.

(** C4 (bootstrap failure).  [loadAtStart] with the format [bytes] returns
    on every file system, so also when the file is missing or corrupt; with
    [bytesz] it never reaches [log.Fatal] either. *)
Theorem bootstrap_bytes_never_fatal :
  (∀ filename indexed s, ∃ s', loadAtStart "bytes" filename indexed s = Ret tt s') ∧
  (∀ filename indexed s, ¬ is_Fatal (loadAtStart "bytesz" filename indexed s)).
Proof.
  split; intros filename indexed s.
  - rewrite (loadAtStart_registered bytes). unfold load_and_report.
    unfold mbind, M_bind, Println, call_retrieve, load. simpl.
    rewrite loadAsBytes_run. simpl. eauto.
  - rewrite (loadAtStart_registered bytesz). unfold load_and_report.
    unfold mbind, M_bind, Println, call_retrieve, load. simpl.
    rewrite loadAsBytesCompressed_run. simpl.
    destruct (gzip_NewReader _); unfold mret, M_ret; simpl; auto.
Qed.

(** C5 (restore after a failed decode).  When the decoder reports an error
    on the bytes [loadAsBytes] read, [restoreStore] runs all the same: the
    collection is replaced by what the decoder left in its target [d], the
    map store is loaded from it and the indexes are rebuilt from it, and
    the error returned is nil. *)
Theorem failed_decode_still_restores (filename : string) (s : State)
    (d : StoreData) (e : error) :
  gob_Decode (file_bytes filename (fs s)) = (d, Some e) →
  ∃ s', loadAsBytes filename s = Ret (length (ItemsData d), None) s' ∧
        ITEMS s' = ptrs_from (length (heap s)) (ItemsData d) ∧
        item_values s' = ItemsData d ∧
        aux s' = FillIndexes (ItemsData d) (LoadMapstore (MapsData d) (aux s)).
Proof.
  intros E. pose proof (loadAsBytes_item_values filename s) as Hv.
  rewrite loadAsBytes_run in *. rewrite E in *. simpl in *. eauto.
Qed.

(** In the [json] path the decode target is the current store: when the
    decoder fails without touching it, the collection keeps its pointers
    and the records behind them. *)
Lemma loadAsJsonZipped_failed_decode filename s fi raw e :
  os_Open filename (fs s) = inr fi →
  gzip_NewReader fi = inr (Reader raw None) →
  json_Unmarshal raw (heap s) (mkStore (ITEMS s) (CreateMapstore (aux s))) =
    (heap s, mkStore (ITEMS s) (CreateMapstore (aux s)), Some e) →
  ∃ s', loadAsJsonZipped filename s = Ret (length (ITEMS s), None) s' ∧
        ITEMS s' = ITEMS s ∧ heap s' = heap s.
Proof.
  intros E1 E2 E3. rewrite loadAsJsonZipped_run, E1, E2. simpl.
  rewrite E3. simpl. eauto.
Qed.


(** C10 (saving reads).  Each of the three save functions returns, with a
    size or with an error, and leaves [ITEMS] as it was: the same pointers
    in the same order, on the same records; the index state is untouched
    as well. *)
Theorem save_leaves_ITEMS (f : format) (filename : string) (s : State) :
  ∃ r s', save f filename s = Ret r s' ∧
          ITEMS s' = ITEMS s ∧ heap s' = heap s ∧ aux s' = aux s.
Proof.
  revert s. fold (frame (save f filename)). destruct f; simpl.
  - unfold saveAsBytes.
    apply frame_bind; [apply frame_makeStore|]. intros store.
    apply frame_bind; [apply frame_EncodeItems|]. intros data.
    apply frame_bind; [apply frame_WriteToFile|]. intros _.
    apply frame_Stat.
  - unfold saveAsBytesCompressed.
    apply frame_bind; [apply frame_makeStore|]. intros store.
    apply frame_bind; [apply frame_EncodeItems|]. intros data.
    apply frame_bind; [apply frame_WriteToFile|]. intros _.
    apply frame_Stat.
  - unfold saveAsJsonZipped.
    apply frame_bind; [apply frame_makeStore|]. intros store.
    apply frame_bind; [apply frame_snapshot|]. intros d.
    destruct (json_Marshal d) as [itemJSON e].
    apply frame_bind; [apply frame_fs_do|]. intros [e'|].
    + apply frame_ret.
    + apply frame_Stat.
Qed.

End PersistenceClaims.

(** ** The binary round trip, given the contract of [encoding/gob] *)

Section RoundTrip.
Context `{GoLib}.

(** What the package documents: a value an [Encoder] transmitted without
    an error is what a [Decoder] reads back from those bytes. *)
Hypothesis gob_contract :
  ∀ d buf, gob_Encode d = (buf, None) → gob_Decode buf = (d, None).

(** C6 (binary round trip), as amended.  For every [Store] the encoder
    accepts,
    [DecodeToStore] applied to the bytes of [EncodeItems] returns a store
    whose collection has the same length and, index by index, a record
    equal to the original one, with the same maps; nothing is printed. *)
Theorem binary_round_trip (store : Store) (s : State) (buf : list byte) :
  gob_Encode (store_data (heap s) store) = (buf, None) →
  ∃ s1 store' s2,
    EncodeItems store s = Ret buf s1 ∧
    DecodeToStore buf s1 = Ret store' s2 ∧
    length (Items store') = length (Items store) ∧
    (∀ i, deref (heap s2) <$> Items store' !! i =
          deref (heap s) <$> Items store !! i) ∧
    Maps store' = Maps store ∧
    out s2 = out s.
Proof using gob_contract.
  intros E. pose proof (gob_contract _ _ E) as D.
  eexists _, _, _. rewrite EncodeItems_run, E. simpl.
  split; [done|]. rewrite DecodeToStore_run, D. simpl.
  split; [done|]. simpl. rewrite length_ptrs_from, length_fmap.
  split; [done|]. rewrite !app_nil_r. split; [|done].
  intros i. rewrite <- !list_lookup_fmap.
  pose proof (deref_ptrs_from (heap s) (deref (heap s) <$> Items store) []) as Hd.
  rewrite app_nil_r in Hd. by rewrite Hd.
Qed.

End RoundTrip.

(** ** Concrete runs on the small instance *)

Module DemoRuns.
Import Demo.
#[local] Existing Instance collaborators.
#[local] Existing Instance golib.

(** Three records with a nil entry between them get the labels 0, 1, 2. *)
Example worker_on_fresh :
  ItemChanWorker [[Some x61; None]; []; [Some x62; Some x63]] fresh =
  Ret tt (mkState [x61; x62; x63] [addr 0; addr 1; addr 2]
            [(0, x61); (1, x62); (2, x63)] [] []).
Proof. reflexivity. Qed.

Lemma wf_busy : wf busy.
Proof. repeat constructor. Defined.

(** The worker started on a collection of two records stops at the first
    non-nil record. *)
Lemma worker_fatal_witness :
  wf busy ∧
  (is_Fatal (ItemChanWorker [[None; Some x63]; [Some x64]] busy) ↔
     ITEMS busy ≠ [] ∧ non_nil (concat [[None; Some x63]; [Some x64]]) ≠ []) ∧
  (ITEMS busy ≠ [] → non_nil (concat [[None; Some x63]; [Some x64]]) ≠ [] →
     ITEMS (final (ItemChanWorker [[None; Some x63]; [Some x64]] busy)) =
       ITEMS busy ++ [addr (length (heap busy))] ∧
     out (final (ItemChanWorker [[None; Some x63]; [Some x64]] busy)) =
       out busy ++ ["storing item index off"]).
Proof.
  split; [exact wf_busy|].
  exact (worker_fatal_iff_nonempty [[None; Some x63]; [Some x64]] busy wf_busy).
Defined.

Example worker_on_busy :
  ItemChanWorker [[None; Some x63]; [Some x64]] busy =
  Fatal (mkState [x61; x62; x63] [addr 0; addr 1; addr 2] [(0, x61); (1, x62)]
           (fs busy) ["storing item index off"]).
Proof. reflexivity. Qed.

(** [xml] is not registered: the file asked for is [items.xml]. *)
Lemma fallback_witness :
  RETRIEVEFUNCS !! "xml" = None ∧
  loadAtStart "xml" "ignored" false busy =
  (Println "storage mehod not found, trying with bytes";;
   load_and_report (Some loadAsBytes) "xml") busy.
Proof.
  split; [reflexivity|].
  exact (fallback_keeps_requested_name "xml" "ignored" false busy eq_refl).
Defined.

(** The run of the code next to the run the specification describes:
    [items.bytes] is on disk with three records, [items.xml] is not. *)
Example fallback_on_busy :
  loadAtStart "xml" "ignored" false busy =
  Ret tt (mkState [x61; x62] [] [] (fs busy)
    ["storage mehod not found, trying with bytes";
     "retrieving with: xml, with filename: items.xml";
     "Unable to ReadFromFile open items.xml: no such file or directory";
     "Unable to ReadFromFile1 invalid argument";
     "Unable to Decode EOF";
     "Loaded in memory amount: 0 time: "]) ∧
  fallback_as_specified busy =
  Ret tt (mkState [x61; x62; x63; x64; x65] [addr 2; addr 3; addr 4]
    [(0, x63); (1, x64); (2, x65)] (fs busy)
    ["storage mehod not found, trying with bytes";
     "retrieving with: bytes, with filename: items.bytes";
     "Loaded in memory amount: 3 time: "]).
Proof. split; reflexivity. Qed.

(** A missing file: [loadAsBytes] reports success with zero records, and
    the two records the collection held are gone. *)
Example loadAsBytes_missing_file :
  os_Open "missing" (fs busy) = inl "open missing: no such file or directory" ∧
  ITEMS busy = [addr 0; addr 1] ∧
  loadAsBytes "missing" busy =
  Ret (0, None) (mkState [x61; x62] [] [] (fs busy)
    ["Unable to ReadFromFile open missing: no such file or directory";
     "Unable to ReadFromFile1 invalid argument";
     "Unable to Decode EOF"]).
Proof. repeat split; reflexivity. Qed.

(** No file on disk: the bootstrap with [bytes] carries on; with [bytesz]
    it panics in [Decompress]; with [json] it ends in [log.Fatal]. *)
Example bootstrap_without_files :
  loadAtStart "bytes" "ignored" false fresh =
  Ret tt (mkState [] [] [] []
    ["retrieving with: bytes, with filename: items.bytes";
     "Unable to ReadFromFile open items.bytes: no such file or directory";
     "Unable to ReadFromFile1 invalid argument";
     "Unable to Decode EOF";
     "Loaded in memory amount: 0 time: "]) ∧
  loadAtStart "bytesz" "ignored" false fresh =
  Panic (mkState [] [] [] []
    ["retrieving with: bytesz, with filename: items.bytesz";
     "Unable to ReadFromFile open items.bytesz: no such file or directory";
     "Unable to ReadFromFile1 invalid argument"]) ∧
  loadAtStart "json" "ignored" false fresh =
  Fatal (mkState [] [] [] []
    ["retrieving with: json, with filename: items.json";
     "could not open items.json reason open items.json: no such file or directory"]).
Proof. repeat split; reflexivity. Qed.

Lemma failed_decode_witness :
  gob_Decode (file_bytes "missing" (fs busy)) = (mkStoreData [] tt, Some "EOF") ∧
  ∃ s', loadAsBytes "missing" busy = Ret (0, None) s' ∧
        ITEMS s' = [] ∧
        item_values s' = [] ∧
        aux s' = [].
Proof.
  split; [reflexivity|].
  exact (failed_decode_still_restores "missing" busy (mkStoreData [] tt) "EOF" eq_refl).
Defined.

(** Decoding into slots leaves every cell alone that is not one of the
    slots. *)
Lemma decode_into_frame bs slots (h : list byte) q :
  q < length h → q ∉ cells slots →
  (decode_into bs slots h).1 !! q = h !! q.
Proof.
  revert slots h. induction bs as [|b rest IH]; intros slots h Hq Hnot; [done|].
  destruct slots as [|[|p] slots']; simpl.
  - specialize (IH [] (h ++ [b])).
    destruct (decode_into rest [] (h ++ [b])) as [h' ps]. simpl in *.
    rewrite IH; [by rewrite lookup_app_l | rewrite length_app; lia | done].
  - specialize (IH slots' (h ++ [b])).
    destruct (decode_into rest slots' (h ++ [b])) as [h' ps]. simpl in *.
    rewrite IH; [by rewrite lookup_app_l | rewrite length_app; lia | done].
  - simpl in Hnot. apply not_elem_of_cons in Hnot as [Hne Hnot].
    destruct (p <? length h).
    + specialize (IH slots' (<[p:=b]> h)).
      destruct (decode_into rest slots' (<[p:=b]> h)) as [h' ps]. simpl in *.
      rewrite IH; [by rewrite list_lookup_insert_ne | by rewrite length_insert | done].
    + specialize (IH slots' (h ++ [b])).
      destruct (decode_into rest slots' (h ++ [b])) as [h' ps]. simpl in *.
      rewrite IH; [by rewrite lookup_app_l | rewrite length_app; lia | done].
Qed.

Lemma valid_cells_lt (h : list byte) slots c :
  Forall (valid_ptr h) slots → c ∈ cells slots → c < length h.
Proof.
  induction 1 as [|[|p] slots' Hp _ IH]; simpl.
  - by intros ?%elem_of_nil.
  - exact IH.
  - intros [->|Hin]%elem_of_cons; [exact Hp | by apply IH].
Qed.

Lemma valid_ptr_mono (h h1 : list byte) slots :
  length h ≤ length h1 →
  Forall (valid_ptr h) slots → Forall (valid_ptr h1) slots.
Proof.
  intros Hle Hv. eapply Forall_impl; [exact Hv|].
  intros [|p]; simpl; [done | lia].
Qed.

(** Into a target of distinct cells, the elements decode to themselves:
    a later element never lands in the cell of an earlier one. *)
Lemma decode_into_values bs slots (h : list byte) :
  Forall (valid_ptr h) slots → NoDup (cells slots) →
  deref (decode_into bs slots h).1 <$> (decode_into bs slots h).2 = Some <$> bs.
Proof.
  revert slots h. induction bs as [|b rest IH]; intros slots h Hv Hnd; [done|].
  assert (Hnew : ∀ slots', Forall (valid_ptr h) slots' → NoDup (cells slots') →
    deref (decode_into rest slots' (h ++ [b])).1 <$>
      (addr (length h) :: (decode_into rest slots' (h ++ [b])).2)
    = Some b :: (Some <$> rest)).
  { intros slots' Hv' Hnd'. simpl. f_equal.
    - rewrite decode_into_frame.
      + rewrite lookup_app_r by lia. by rewrite Nat.sub_diag.
      + rewrite length_app. simpl. lia.
      + intros Hin. apply (valid_cells_lt h) in Hin; [lia | done].
    - apply IH; [|done]. eapply valid_ptr_mono; [|exact Hv'].
      rewrite length_app. lia. }
  destruct slots as [|[|p] slots']; simpl.
  - specialize (Hnew [] (Forall_nil_2 _) (NoDup_nil_2)).
    by destruct (decode_into rest [] (h ++ [b])).
  - apply Forall_cons_1 in Hv as [_ Hv]. specialize (Hnew slots' Hv Hnd).
    by destruct (decode_into rest slots' (h ++ [b])).
  - apply Forall_cons_1 in Hv as [Hp Hv]. simpl in Hp, Hnd.
    apply NoDup_cons in Hnd as [Hnot Hnd].
    apply Nat.ltb_lt in Hp as Hb. rewrite Hb.
    assert (Hv1 : Forall (valid_ptr (<[p:=b]> h)) slots').
    { eapply valid_ptr_mono; [|exact Hv]. by rewrite length_insert. }
    specialize (IH slots' (<[p:=b]> h) Hv1 Hnd).
    pose proof (decode_into_frame rest slots' (<[p:=b]> h) p) as Hf.
    destruct (decode_into rest slots' (<[p:=b]> h)) as [h' ps]. simpl in *.
    f_equal; [|exact IH].
    rewrite Hf; [by apply list_lookup_insert_eq | by rewrite length_insert | done].
Qed.

(** The JSON document of the demo decodes to its records on every heap
    and into every target of distinct cells. *)
Lemma json_decode_holds (bs h : list byte) (target : Store) :
  Forall (valid_ptr h) (Items target) → NoDup (cells (Items target)) →
  ∃ h' store,
    json_decode (x7b :: bs) h target = (h', store, None) ∧
    deref h' <$> Items store = Some <$> bs.
Proof.
  intros Hv Hnd. pose proof (decode_into_values bs (Items target) h Hv Hnd) as Hd.
  simpl. destruct (decode_into bs (Items target) h) as [h' ps].
  by eexists _, _.
Qed.

Lemma busy_holds_json :
  file_holds json "items.json" (fs busy) [Some x63; Some x64; Some x65].
Proof.
  exists (Reader [x1f; x7b; x63; x64; x65] None), [x7b; x63; x64; x65].
  split; [reflexivity|]. split; [reflexivity|].
  intros h target. exact (json_decode_holds [x63; x64; x65] h target).
Defined.

Lemma distinct_busy : NoDup (cells (ITEMS busy)).
Proof.
  simpl. apply NoDup_cons. split; [|apply NoDup_singleton].
  intros Hin%list_elem_of_singleton. discriminate.
Defined.


(** The three loads of the same three records: the binary formats put
    them in new cells, [json] writes the first two into the cells of the
    two records the collection held. *)
Example restore_on_busy :
  loadAsBytes "items.bytes" busy =
  Ret (3, None) (mkState [x61; x62; x63; x64; x65] [addr 2; addr 3; addr 4]
                   [(0, x63); (1, x64); (2, x65)] (fs busy) []) ∧
  loadAsBytesCompressed "items.bytesz" busy =
  Ret (3, None) (mkState [x61; x62; x63; x64; x65] [addr 2; addr 3; addr 4]
                   [(0, x63); (1, x64); (2, x65)] (fs busy) []) ∧
  loadAsJsonZipped "items.json" busy =
  Ret (3, None) (mkState [x63; x64; x65] [addr 0; addr 1; addr 2]
                   [(0, x63); (1, x64); (2, x65)] (fs busy) []).
Proof. repeat split; reflexivity. Qed.


(** The claim of C6 as it was stated fails for a store with a nil entry:
    the encoder refuses it, [EncodeItems] prints the error and returns the
    buffer, and what [DecodeToStore] makes of it has no entry at all. *)
Lemma round_trip_fails_on_nil_entry :
  ∃ buf s1 store' s2,
    EncodeItems (mkStore [addr 0; nilptr] tt) busy = Ret buf s1 ∧
    DecodeToStore buf s1 = Ret store' s2 ∧
    out s2 = ["error encoding nil element"; "Unable to Decode EOF"] ∧
    length (Items store') ≠ length (Items (mkStore [addr 0; nilptr] tt)).
Proof.
  eexists _, _, _, _. split; [vm_compute; reflexivity|].
  split; [vm_compute; reflexivity|].
  split; [reflexivity|]. simpl. discriminate.
Qed.

Lemma present_Some items bs : present items = Some bs → Some <$> bs = items.
Proof.
  revert bs. induction items as [|[b|] rest IH]; intros bs E; simpl in E.
  - by inversion E.
  - destruct (present rest) as [bs'|]; [|done]. inversion E; subst.
    simpl. f_equal. by apply IH.
  - done.
Defined.

(** The demo codec keeps the contract of [encoding/gob]. *)
Lemma demo_gob_contract (d : StoreData) (buf : list byte) :
  gob_Encode d = (buf, None) → gob_Decode buf = (d, None).
Proof.
  destruct d as [items []]. simpl. unfold encode. simpl.
  destruct (present items) as [bs|] eqn:E; [|done].
  intros [= <-]. simpl. by rewrite (present_Some _ _ E).
Defined.

Lemma round_trip_witness :
  gob_Encode (store_data (heap busy) (mkStore [addr 0; addr 1] tt)) =
    ([x67; x61; x62], None) ∧
  ∃ s1 store' s2,
    EncodeItems (mkStore [addr 0; addr 1] tt) busy = Ret [x67; x61; x62] s1 ∧
    DecodeToStore [x67; x61; x62] s1 = Ret store' s2 ∧
    length (Items store') = 2 ∧
    (∀ i, deref (heap s2) <$> Items store' !! i =
          deref (heap busy) <$> [addr 0; addr 1] !! i) ∧
    Maps store' = tt ∧
    out s2 = out busy.
Proof.
  split; [reflexivity|].
  exact (binary_round_trip demo_gob_contract (mkStore [addr 0; addr 1] tt) busy
           [x67; x61; x62] eq_refl).
Defined.

(** Saving in each format writes the file and leaves the collection. *)
Example save_on_busy :
  ITEMS (final (saveAsBytes "out" busy)) = [addr 0; addr 1] ∧
  ITEMS (final (saveAsBytesCompressed "out" busy)) = [addr 0; addr 1] ∧
  ITEMS (final (saveAsJsonZipped "out" busy)) = [addr 0; addr 1] ∧
  file "out" (fs (final (saveAsBytesCompressed "out" busy))) =
    Some [x1f; x67; x61; x62].
Proof. repeat split; reflexivity. Qed.

End DemoRuns.

(** * Further properties of the code *)

(** ** The worker on any state *)

Section WorkerExtras.
Context `{GoLib}.

Lemma final_bind {A B} (m : M A) (k : A → M B) s :
  final ((m ≫= k) s) =
  match m s with
  | Ret a s' => final (k a s')
  | Fatal s' => s'
  | Panic s' => s'
  end.
Proof. unfold mbind, M_bind. by destruct (m s). Qed.

Lemma grows_refl s : grows s s.
Proof. by repeat split. Qed.

Lemma grows_trans s1 s2 s3 : grows s1 s2 → grows s2 s3 → grows s1 s3.
Proof.
  intros (I1 & H1 & F1) (I2 & H2 & F2). repeat split.
  - by etrans.
  - by etrans.
  - congruence.
Qed.

Lemma worker_entry_grows itm label s : grows s (final (worker_entry itm label s)).
Proof.
  destruct itm as [i|]; [|apply grows_refl].
  pose proof (worker_entry_non_nil i label s) as W. cbv zeta in W.
  destruct (Shrink i label (aux s)) as [v a0].
  destruct (StoreBitArrayColumns v a0) as [v1 a1].
  destruct (GeoIndex v1 label a1) as [v2 a2].
  rewrite W.
  destruct (_ !! label) as [q|]; [destruct (decide _)|];
    simpl; repeat split; by apply prefix_app_r.
Qed.

Lemma worker_batch_grows items label s :
  grows s (final (worker_batch items label s)).
Proof.
  revert label s. induction items as [|itm rest IH]; intros label s.
  - apply grows_refl.
  - simpl. rewrite final_bind.
    pose proof (worker_entry_grows itm label s) as G.
    destruct (worker_entry itm label s) as [l1 s1| |]; simpl in G; [|done|done].
    eapply grows_trans; [exact G | apply IH].
Qed.

(** X1.  Ingestion only appends.  However a run of the worker ends, on
    any state: the collection it leaves starts with the collection it
    found, pointer for pointer; the heap it leaves starts with the heap it
    found, so no record stored earlier was changed; and the file system is
    the one it found. *)
Theorem worker_only_appends (itemChan : list ItemsIn) (s : State) :
  ITEMS s `prefix_of` ITEMS (final (ItemChanWorker itemChan s)) ∧
  heap s `prefix_of` heap (final (ItemChanWorker itemChan s)) ∧
  fs (final (ItemChanWorker itemChan s)) = fs s.
Proof.
  pose proof (worker_batch_grows (concat itemChan) 0 s) as G.
  rewrite ItemChanWorker_unfold.
  by destruct (worker_batch (concat itemChan) 0 s).
Qed.

Lemma worker_batch_skips_nil items label s :
  worker_batch items label s = worker_batch (Some <$> non_nil items) label s.
Proof.
  revert label s. induction items as [|[i|] rest IH]; intros label s; [done| |].
  - change ((worker_entry (Some i) label ≫= worker_batch rest) s =
            (worker_entry (Some i) label ≫=
               worker_batch (Some <$> non_nil rest)) s).
    unfold mbind, M_bind.
    destruct (worker_entry (Some i) label s); [apply IH | done | done].
  - simpl. erewrite bind_Ret by apply worker_entry_nil. apply IH.
Qed.

(** X2.  Only the sequence of non-nil records matters.  Two channels whose
    batches hold the same non-nil records in the same order take the
    worker from any state to the same result: where the batches are cut
    and where the nil entries sit makes no difference. *)
Theorem worker_batching_irrelevant (itemChan1 itemChan2 : list ItemsIn) (s : State) :
  non_nil (concat itemChan1) = non_nil (concat itemChan2) →
  ItemChanWorker itemChan1 s = ItemChanWorker itemChan2 s.
Proof.
  intros E. rewrite !ItemChanWorker_unfold.
  rewrite (worker_batch_skips_nil (concat itemChan1)).
  rewrite (worker_batch_skips_nil (concat itemChan2)).
  by rewrite E.
Qed.

Lemma worker_entry_in_bounds itm label s :
  label ≤ length (ITEMS s) →
  match worker_entry itm label s with
  | Ret label' s' => label' ≤ length (ITEMS s')
  | Fatal _ => True
  | Panic _ => False
  end.
Proof.
  intros Hle. destruct itm as [i|]; [|done].
  pose proof (worker_entry_non_nil i label s) as W. cbv zeta in W.
  destruct (Shrink i label (aux s)) as [v a0].
  destruct (StoreBitArrayColumns v a0) as [v1 a1].
  destruct (GeoIndex v1 label a1) as [v2 a2].
  rewrite W.
  destruct (_ !! label) as [q|] eqn:E.
  - destruct (decide _); [done|]. simpl. rewrite length_app. simpl. lia.
  - apply lookup_ge_None_1 in E. rewrite length_app in E. simpl in E. lia.
Qed.

Lemma worker_batch_in_bounds items label s :
  label ≤ length (ITEMS s) →
  match worker_batch items label s with
  | Ret label' s' => label' ≤ length (ITEMS s')
  | Fatal _ => True
  | Panic _ => False
  end.
Proof.
  revert label s. induction items as [|itm rest IH]; intros label s Hle; [done|].
  simpl. unfold mbind, M_bind.
  pose proof (worker_entry_in_bounds itm label s Hle) as B.
  destruct (worker_entry itm label s) as [l1 s1| |]; [by apply IH | done | done].
Qed.

(** X3.  The worker never panics.  On any state and any channel its read
    of [ITEMS[label]] is in bounds, because the label never exceeds the
    number of entries the collection had before the append; the run
    returns or ends in [log.Fatal]. *)
Theorem worker_never_panics (itemChan : list ItemsIn) (s : State) :
  ¬ is_Panic (ItemChanWorker itemChan s).
Proof.
  rewrite ItemChanWorker_unfold.
  pose proof (worker_batch_in_bounds (concat itemChan) 0 s (Nat.le_0_l _)) as B.
  destruct (worker_batch (concat itemChan) 0 s); simpl; tauto.
Qed.

Lemma valid_ptr_app h k p : valid_ptr h p → valid_ptr (h ++ k) p.
Proof. destruct p as [|l]; simpl; [done|]. rewrite length_app. lia. Qed.

Lemma wf_snoc h items v :
  Forall (valid_ptr h) items →
  Forall (valid_ptr (h ++ [v])) (items ++ [addr (length h)]).
Proof.
  intros Hwf. apply Forall_app. split.
  - eapply Forall_impl; [exact Hwf|]. intros p. apply valid_ptr_app.
  - constructor; [|done]. simpl. rewrite length_app. simpl. lia.
Qed.

Lemma worker_entry_wf itm label s :
  wf s → wf (final (worker_entry itm label s)).
Proof.
  intros Hwf. destruct itm as [i|]; [|done].
  pose proof (worker_entry_non_nil i label s) as W. cbv zeta in W.
  destruct (Shrink i label (aux s)) as [v a0].
  destruct (StoreBitArrayColumns v a0) as [v1 a1].
  destruct (GeoIndex v1 label a1) as [v2 a2].
  rewrite W. unfold wf in *.
  destruct (_ !! label) as [q|]; [destruct (decide _)|];
    simpl; by apply wf_snoc.
Qed.

Lemma worker_batch_wf items label s :
  wf s → wf (final (worker_batch items label s)).
Proof.
  revert label s. induction items as [|itm rest IH]; intros label s Hwf; [done|].
  simpl. rewrite final_bind.
  pose proof (worker_entry_wf itm label s Hwf) as W.
  destruct (worker_entry itm label s) as [l1 s1| |]; simpl in W; [by apply IH|done|done].
Qed.

(** X4.  The worker leaves no dangling pointer.  If every address in the
    collection is a cell of the heap when the worker starts, the same
    holds in the state it leaves, whether it returned or stopped in
    [log.Fatal]. *)
Theorem worker_keeps_wf (itemChan : list ItemsIn) (s : State) :
  wf s → wf (final (ItemChanWorker itemChan s)).
Proof.
  intros Hwf. rewrite ItemChanWorker_unfold.
  pose proof (worker_batch_wf (concat itemChan) 0 s Hwf) as W.
  by destruct (worker_batch (concat itemChan) 0 s).
Qed.

End WorkerExtras.

(** ** Save and load on any state *)

Section PersistenceExtras.
Context `{GoLib}.

Lemma WriteToFile_run data filename s :
  WriteToFile data filename s =
  Ret tt (mkState (heap s) (ITEMS s) (aux s) (written filename data (fs s))
            (out s ++ complaint "Unable to WriteToFile"
                        (os_Create filename (fs s)).2)).
Proof.
  unfold WriteToFile, written. run.
  destruct (os_Create filename (fs s)) as [x1 [e|]]; simpl; [done|].
  by rewrite app_nil_r.
Qed.

Lemma Stat_run filename s :
  (r ← fs_get (os_Stat filename);
   match r with
   | inl err => mret (0%Z, Some err)
   | inr size => mret (size, None)
   end) s = Ret (stat_result filename (fs s)) s.
Proof. unfold stat_result. run. by destruct (os_Stat filename (fs s)). Qed.

Lemma saveAsBytes_run filename s :
  let enc := gob_Encode (snapshot_data s) in
  let x := written filename enc.1 (fs s) in
  saveAsBytes filename s =
  Ret (stat_result filename x)
      (mkState (heap s) (ITEMS s) (aux s) x
         (out s ++ complaint "error encoding" enc.2
                ++ complaint "Unable to WriteToFile" (os_Create filename (fs s)).2)).
Proof.
  intros enc x. unfold saveAsBytes.
  erewrite bind_Ret by reflexivity.
  erewrite bind_Ret by apply EncodeItems_run.
  erewrite bind_Ret by apply WriteToFile_run.
  rewrite Stat_run. simpl. by rewrite <- app_assoc.
Qed.

Lemma saveAsBytesCompressed_run filename s :
  let enc := gob_Encode (snapshot_data s) in
  let x := written filename (Compress enc.1) (fs s) in
  saveAsBytesCompressed filename s =
  Ret (stat_result filename x)
      (mkState (heap s) (ITEMS s) (aux s) x
         (out s ++ complaint "error encoding" enc.2
                ++ complaint "Unable to WriteToFile" (os_Create filename (fs s)).2)).
Proof.
  intros enc x. unfold saveAsBytesCompressed.
  erewrite bind_Ret by reflexivity.
  erewrite bind_Ret by apply EncodeItems_run.
  erewrite bind_Ret by apply WriteToFile_run.
  rewrite Stat_run. simpl. by rewrite <- app_assoc.
Qed.

Lemma saveAsJsonZipped_run filename s :
  let w := ioutil_WriteFile filename
             (gzip_Writer true (json_Marshal (snapshot_data s)).1) (fs s) in
  saveAsJsonZipped filename s =
  Ret (match w.2 with
       | Some e => (0%Z, Some e)
       | None => stat_result filename w.1
       end)
      (mkState (heap s) (ITEMS s) (aux s) w.1 (out s)).
Proof.
  intros w. subst w. unfold saveAsJsonZipped, snapshot_data, stat_result. run.
  destruct (json_Marshal _) as [js e0]. simpl.
  destruct (ioutil_WriteFile _ _ _) as [x1 [e|]]; simpl; [done|].
  by destruct (os_Stat filename x1).
Qed.

(** X5.  A save that returns an error returns size 0, in each of the three
    formats. *)
Theorem save_error_has_zero_size (f : format) (filename : string) (s s' : State)
    (size : Z) (e : error) :
  save f filename s = Ret (size, Some e) s' → size = 0%Z.
Proof.
  destruct f; simpl.
  - rewrite saveAsBytes_run. unfold stat_result.
    destruct (os_Stat _ _); by intros [= <- _].
  - rewrite saveAsBytesCompressed_run. unfold stat_result.
    destruct (os_Stat _ _); by intros [= <- _].
  - rewrite saveAsJsonZipped_run. unfold stat_result.
    destruct (ioutil_WriteFile _ _ _).2; [by intros [= <- _]|].
    destruct (os_Stat _ _); by intros [= <- _].
Qed.

(** X6.  The error of [os.Create] is not returned.  When the file cannot be
    created but a file of that name can be examined, [saveAsBytes] and
    [saveAsBytesCompressed] write nothing, print the error and return the
    size of the file that is there, with a nil error. *)
Theorem failed_create_reports_stale_size (filename : string) (s : State)
    (x1 : FS) (e : error) (size : Z) :
  os_Create filename (fs s) = (x1, Some e) →
  os_Stat filename x1 = inr size →
  ∃ s1 s2,
    saveAsBytes filename s = Ret (size, None) s1 ∧ fs s1 = x1 ∧
    saveAsBytesCompressed filename s = Ret (size, None) s2 ∧ fs s2 = x1 ∧
    ("Unable to WriteToFile " +:+ e) ∈ out s1 ∧
    ("Unable to WriteToFile " +:+ e) ∈ out s2.
Proof.
  intros Ec Es. eexists _, _.
  rewrite saveAsBytes_run, saveAsBytesCompressed_run.
  unfold written, stat_result. rewrite Ec. simpl. rewrite Es.
  repeat split; try done; simpl;
    rewrite !elem_of_app; right; right; by apply list_elem_of_singleton.
Qed.

(** X7.  An encoding error is not returned either.  When [gob] reports an
    error, [EncodeItems] prints it and hands on the bytes the buffer holds;
    on a file system that takes the file, both binary save functions write
    those bytes and return the size with a nil error. *)
Theorem save_hides_encoding_error (filename : string) (s : State)
    (buf : list byte) (e : error) (x1 : FS) (size1 size2 : Z) :
  gob_Encode (snapshot_data s) = (buf, Some e) →
  os_Create filename (fs s) = (x1, None) →
  os_Stat filename (File_Write filename buf x1) = inr size1 →
  os_Stat filename (File_Write filename (Compress buf) x1) = inr size2 →
  ∃ s1 s2,
    saveAsBytes filename s = Ret (size1, None) s1 ∧
    fs s1 = File_Write filename buf x1 ∧
    saveAsBytesCompressed filename s = Ret (size2, None) s2 ∧
    fs s2 = File_Write filename (Compress buf) x1 ∧
    out s1 = out s ++ ["error encoding " +:+ e].
Proof.
  intros Ee Ec E1 E2. eexists _, _.
  rewrite saveAsBytes_run, saveAsBytesCompressed_run.
  unfold written, stat_result. rewrite Ee, Ec. simpl. rewrite E1, E2.
  repeat split; done.
Qed.

Lemma ptrs_from_valid h vs :
  Forall (valid_ptr (h ++ omap id vs)) (ptrs_from (length h) vs).
Proof.
  revert h. induction vs as [|[v|] rest IH]; intros h; simpl.
  - constructor.
  - constructor.
    + simpl. rewrite length_app. simpl. lia.
    + specialize (IH (h ++ [v])).
      rewrite length_app, Nat.add_1_r, <- app_assoc in IH. exact IH.
  - constructor; [done|]. apply IH.
Qed.

(** X8.  The binary loads leave no dangling pointer.  Whatever the file
    holds and whatever the state was, every address in the collection
    [loadAsBytes] leaves is a cell of the heap; the same holds whenever
    [loadAsBytesCompressed] returns. *)
Theorem binary_load_leaves_wf (filename : string) (s : State) :
  wf (final (loadAsBytes filename s)) ∧
  (∀ r s', loadAsBytesCompressed filename s = Ret r s' → wf s').
Proof.
  split.
  - rewrite loadAsBytes_run. apply ptrs_from_valid.
  - intros r s'. rewrite loadAsBytesCompressed_run.
    destruct (gzip_NewReader _); [done|]. intros [= _ <-]. apply ptrs_from_valid.
Qed.

(** X9.  A load that returns an error has changed nothing: it returns 0
    and the state it was called on.  A load that returns a nil error
    returns the length of the collection it leaves. *)
Theorem load_result (f : format) (filename : string) (s s' : State) (n : nat) :
  (∀ e, load f filename s = Ret (n, Some e) s' → n = 0 ∧ s' = s) ∧
  (load f filename s = Ret (n, None) s' → n = length (ITEMS s')).
Proof.
  destruct f; simpl.
  - rewrite loadAsBytes_run. split; [done|].
    intros [= <- <-]. simpl. by rewrite length_ptrs_from.
  - rewrite loadAsBytesCompressed_run.
    destruct (gzip_NewReader _); [done|]. split; [done|].
    intros [= <- <-]. simpl. by rewrite length_ptrs_from.
  - rewrite loadAsJsonZipped_run.
    destruct (os_Open _ _) as [err|fi]; [by split; [intros e0 [= <- _ <-]|]|].
    destruct (gzip_NewReader fi) as [err|fz]; [by split; [intros e0 [= <- _ <-]|]|].
    destruct (rerr fz); [by split; [intros e0 [= <- _ <-]|]|].
    split; [done|]. by intros [= <- <-].
Qed.

(** X10.  Loading never writes to the file system, however it ends; and
    the binary loads only allocate: the heap they leave starts with the
    heap they found. *)
Theorem load_never_writes (f : format) (filename : string) (s : State) :
  fs (final (load f filename s)) = fs s ∧
  (f ≠ json → heap s `prefix_of` heap (final (load f filename s))).
Proof.
  destruct f; simpl.
  - rewrite loadAsBytes_run. simpl. split; [done|]. intros _. by apply prefix_app_r.
  - rewrite loadAsBytesCompressed_run.
    destruct (gzip_NewReader _); simpl; (split; [done|]); intros _;
      [done | by apply prefix_app_r].
  - rewrite loadAsJsonZipped_run. split; [|done].
    destruct (os_Open _ _) as [err|fi]; [done|].
    destruct (gzip_NewReader fi) as [err|fz]; [done|].
    by destruct (rerr fz).
Qed.

End PersistenceExtras.

(** ** The bootstrap on any state *)

Section BootstrapExtras.
Context `{GoLib}.

Lemma loadAtStart_run storagename filename indexed s :
  loadAtStart storagename filename indexed s =
  match RETRIEVEFUNCS !! storagename with
  | Some g => load_and_report (Some g) storagename s
  | None =>
      load_and_report (Some loadAsBytes) storagename
        (set_out (out s ++ ["storage mehod not found, trying with bytes"]) s)
  end.
Proof. unfold loadAtStart. by destruct (RETRIEVEFUNCS !! storagename). Qed.

Lemma load_and_report_run g storagename s :
  let filename := FILENAME +:+ "." +:+ storagename in
  load_and_report (Some g) storagename s =
  match g filename
          (set_out (out s ++ ["retrieving with: " +:+ storagename +:+
                              ", with filename: " +:+ filename]) s) with
  | Ret (n, None) s1 =>
      Ret tt (set_out (out s1 ++ ["Loaded in memory amount: " +:+ pretty n +:+
                                  " time: "]) s1)
  | Ret (n, Some e) s1 =>
      Fatal (set_out (out s1 ++ ["could not open " +:+ filename +:+
                                 " reason " +:+ e]) s1)
  | Fatal s1 => Fatal s1
  | Panic s1 => Panic s1
  end.
Proof.
  intros filename. unfold load_and_report, call_retrieve, mbind, M_bind, Println.
  fold filename. destruct (g filename _) as [[n [e|]] s1| |]; done.
Qed.

Lemma unregistered_not_format storagename f :
  RETRIEVEFUNCS !! storagename = None → storagename ≠ format_name f.
Proof. intros E ->. by rewrite RETRIEVEFUNCS_load in E. Qed.

(** X11.  Only [json] can stop the bootstrap.  [loadAtStart] ends in
    [log.Fatal] exactly when the storage name is [json] and the file
    [FILENAME.json] cannot be opened, has no gzip header, or cannot be read
    to the end; a document the JSON decoder rejects is not fatal, and no
    other storage name, registered or not, is ever fatal. *)
Theorem bootstrap_fatal_iff (storagename filename : string) (indexed : bool)
    (s : State) :
  is_Fatal (loadAtStart storagename filename indexed s) ↔
  storagename = "json" ∧
  match os_Open (FILENAME +:+ "." +:+ "json") (fs s) with
  | inl _ => True
  | inr fi =>
      match gzip_NewReader fi with
      | inl _ => True
      | inr fz => is_Some (rerr fz)
      end
  end.
Proof.
  rewrite loadAtStart_run.
  destruct (RETRIEVEFUNCS !! storagename) as [g|] eqn:E.
  - apply RETRIEVEFUNCS_registered in E as (f & -> & ->).
    rewrite load_and_report_run. destruct f; simpl.
    + rewrite loadAsBytes_run. simpl. split; [done | by intros [? _]].
    + rewrite loadAsBytesCompressed_run.
      destruct (gzip_NewReader _); simpl; (split; [done | by intros [? _]]).
    + rewrite loadAsJsonZipped_run. simpl.
      destruct (os_Open _ _) as [err|fi]; simpl; [done|].
      destruct (gzip_NewReader fi) as [err|fz]; simpl; [done|].
      destruct (rerr fz) as [e|]; simpl; [by eauto|].
      split; [done|]. intros [_ [e He]]. done.
  - pose proof (unregistered_not_format _ json E) as Hne.
    rewrite load_and_report_run, loadAsBytes_run. simpl.
    split; [done | by intros [? _]].
Qed.

(** X12.  [loadAtStart] panics exactly when the storage name is [bytesz]
    and the bytes read from [FILENAME.bytesz] (none, if the file cannot be
    opened) have no gzip header: [Decompress] then reads from a nil
    reader.  In particular the table lookup after the fallback never
    yields a nil function. *)
Theorem bootstrap_panic_iff (storagename filename : string) (indexed : bool)
    (s : State) :
  is_Panic (loadAtStart storagename filename indexed s) ↔
  storagename = "bytesz" ∧
  ∃ e, gzip_NewReader
         (bytes_NewReader (file_bytes (FILENAME +:+ "." +:+ "bytesz") (fs s)))
       = inl e.
Proof.
  rewrite loadAtStart_run.
  destruct (RETRIEVEFUNCS !! storagename) as [g|] eqn:E.
  - apply RETRIEVEFUNCS_registered in E as (f & -> & ->).
    rewrite load_and_report_run. destruct f; simpl.
    + rewrite loadAsBytes_run. simpl. split; [done | by intros [? _]].
    + rewrite loadAsBytesCompressed_run. simpl.
      destruct (gzip_NewReader _) as [e|r]; simpl; [split; [by eauto | done]|].
      split; [done|]. by intros [_ [e He]].
    + rewrite loadAsJsonZipped_run. simpl.
      destruct (os_Open _ _) as [err|fi]; simpl; [split; [done | by intros [? _]]|].
      destruct (gzip_NewReader fi) as [err|fz]; simpl;
        [split; [done | by intros [? _]]|].
      destruct (rerr fz) as [e|]; simpl; (split; [done | by intros [? _]]).
  - pose proof (unregistered_not_format _ bytesz E) as Hne.
    rewrite load_and_report_run, loadAsBytes_run. simpl.
    split; [done | by intros [? _]].
Qed.

Lemma load_count (f : format) filename s n s' :
  load f filename s = Ret (n, None) s' → n = length (ITEMS s').
Proof.
  destruct f; simpl.
  - rewrite loadAsBytes_run. intros [= <- <-]. simpl. by rewrite length_ptrs_from.
  - rewrite loadAsBytesCompressed_run.
    destruct (gzip_NewReader _); [done|].
    intros [= <- <-]. simpl. by rewrite length_ptrs_from.
  - rewrite loadAsJsonZipped_run.
    destruct (os_Open _ _) as [err|fi]; [done|].
    destruct (gzip_NewReader fi) as [err|fz]; [done|].
    destruct (rerr fz); [done|]. by intros [= <- <-].
Qed.

(** X13.  The count reported is the size of the collection.  Whenever
    [loadAtStart] returns, for any storage name, the last line on the
    console is the [Loaded in memory amount] message with the length the
    collection has at that moment. *)
Theorem bootstrap_reports_collection_size (storagename filename : string)
    (indexed : bool) (s s' : State) :
  loadAtStart storagename filename indexed s = Ret tt s' →
  last (out s') =
    Some ("Loaded in memory amount: " +:+ pretty (length (ITEMS s')) +:+ " time: ").
Proof.
  rewrite loadAtStart_run.
  assert (Hg : ∀ f name s0,
    load_and_report (Some (load f)) name s0 = Ret tt s' →
    last (out s') =
      Some ("Loaded in memory amount: " +:+ pretty (length (ITEMS s')) +:+ " time: ")).
  { intros f name s0. rewrite load_and_report_run.
    destruct (load f _ _) as [[n [e|]] s1| |] eqn:El; try done.
    apply load_count in El as ->. intros [= <-]. simpl. apply last_snoc. }
  destruct (RETRIEVEFUNCS !! storagename) as [g|] eqn:E.
  - apply RETRIEVEFUNCS_registered in E as (f & -> & ->). apply Hg.
  - apply (Hg bytes).
Qed.

End BootstrapExtras.

(** ** Save, then load *)

Section BinarySaveLoad.
Context `{GoLib}.

(** A file that was created and written reads back as written. *)
Hypothesis file_contract :
  ∀ filename data x x1,
    os_Create filename x = (x1, None) →
    os_Open filename (File_Write filename data x1) = inr (Reader data None).

(** What [gob] transmitted without an error, it reads back. *)
Hypothesis gob_contract :
  ∀ d buf, gob_Encode d = (buf, None) → gob_Decode buf = (d, None).

(** What a [gzip.Writer] wrote and closed, a [gzip.Reader] reads back. *)
Hypothesis gzip_contract :
  ∀ data, gzip_NewReader (bytes_NewReader (gzip_Writer false data))
          = inr (Reader data None).

(** X14.  Saving and loading in a binary format restores the records.  If
    the file can be created and the encoder takes the snapshot, then
    [saveAsBytes] followed by [loadAsBytes] on the same name, and likewise
    [saveAsBytesCompressed] followed by [loadAsBytesCompressed], returns
    the number of entries the collection had and leaves a collection with
    the same records slot by slot, on new cells; the old cells stay as
    they were. *)
Theorem binary_save_then_load (f : format) (filename : string) (s : State)
    (x1 : FS) (buf : list byte) :
  f ≠ json →
  os_Create filename (fs s) = (x1, None) →
  gob_Encode (snapshot_data s) = (buf, None) →
  ∃ r s1 s2,
    save f filename s = Ret r s1 ∧
    load f filename s1 = Ret (length (ITEMS s), None) s2 ∧
    item_values s2 = item_values s ∧
    heap s `prefix_of` heap s2 ∧
    (wf s → ∀ l, addr l ∈ ITEMS s2 → addr l ∉ ITEMS s).
Proof using file_contract gob_contract gzip_contract.
  intros Hf Ec Ee. pose proof (gob_contract _ _ Ee) as Ed.
  assert (Hfresh : ∀ vs, wf s → ∀ l,
    addr l ∈ ptrs_from (length (heap s)) vs → addr l ∉ ITEMS s).
  { intros vs Hwf l Hin%ptrs_from_fresh Hold.
    unfold wf in Hwf. rewrite Forall_forall in Hwf.
    specialize (Hwf _ Hold). simpl in Hwf. lia. }
  assert (Hval : deref (heap s ++ omap id (item_values s)) <$>
                   ptrs_from (length (heap s)) (item_values s) = item_values s).
  { pose proof (deref_ptrs_from (heap s) (item_values s) []) as Hd.
    by rewrite app_nil_r in Hd. }
  destruct f; [| |done]; simpl; eexists _, _, _.
  - rewrite saveAsBytes_run. split; [done|].
    rewrite loadAsBytes_run. simpl.
    unfold written, file_bytes. rewrite Ec, Ee. simpl.
    rewrite (file_contract _ _ _ _ Ec). simpl. rewrite Ed. simpl.
    rewrite length_fmap. split; [done|]. simpl.
    split; [exact Hval|]. split; [by apply prefix_app_r | apply Hfresh].
  - rewrite saveAsBytesCompressed_run. split; [done|].
    rewrite loadAsBytesCompressed_run. simpl.
    unfold written, file_bytes. rewrite Ec, Ee. simpl.
    rewrite (file_contract _ _ _ _ Ec). simpl.
    unfold Compress. rewrite gzip_contract. simpl. rewrite Ed. simpl.
    rewrite length_fmap. split; [done|]. simpl.
    split; [exact Hval|]. split; [by apply prefix_app_r | apply Hfresh].
Qed.

End BinarySaveLoad.

Section JsonSaveLoad.
Context `{GoLib}.

(** A file that [ioutil.WriteFile] wrote reads back as written. *)
Hypothesis writefile_contract :
  ∀ filename data x x1,
    ioutil_WriteFile filename data x = (x1, None) →
    os_Open filename x1 = inr (Reader data None).

(** What a [gzip.Writer] wrote, flushed and closed, a [gzip.Reader] reads
    back. *)
Hypothesis gzip_contract :
  ∀ data, gzip_NewReader (Reader (gzip_Writer true data) None)
          = inr (Reader data None).

(** The document [json.Marshal] made of a store decodes without an error
    to a store with the same records, into every target whose pointers
    are cells of the heap and no two of which are the same cell.  (The
    decoder writes into the records of its target: with two slots on one
    cell the later element would overwrite the earlier.) *)
Hypothesis json_contract :
  ∀ d js, json_Marshal d = (js, None) →
    ∀ h target,
      Forall (valid_ptr h) (Items target) →
      NoDup (cells (Items target)) →
      ∃ h' store,
        json_Unmarshal js h target = (h', store, None) ∧
        deref h' <$> Items store = ItemsData d.


End JsonSaveLoad.

(** ** Ingestion after a restore *)

Section RestoreThenIngest.
Context `{GoLib}.

(** X16.  Ingestion after a binary load of a non-empty file is fatal.  If
    the bytes of the file decode to at least one record, then in the state
    [loadAsBytes] leaves the worker stops in [log.Fatal] on every channel
    that delivers a non-nil record: its label starts at 0 again while the
    collection does not. *)
Theorem ingest_after_load_is_fatal (filename : string) (s : State)
    (itemChan : list ItemsIn) :
  ItemsData (gob_Decode (file_bytes filename (fs s))).1 ≠ [] →
  non_nil (concat itemChan) ≠ [] →
  is_Fatal (ItemChanWorker itemChan (final (loadAsBytes filename s))).
Proof.
  intros Hne Hnn. rewrite ItemChanWorker_unfold.
  assert (Hwf : wf (final (loadAsBytes filename s))).
  { rewrite loadAsBytes_run. apply ptrs_from_valid. }
  assert (HI : ITEMS (final (loadAsBytes filename s)) ≠ []).
  { rewrite loadAsBytes_run. simpl. intros E.
    apply Hne. apply (f_equal length) in E. rewrite length_ptrs_from in E.
    by destruct (ItemsData _). }
  destruct (worker_batch_fatal _ _ Hwf HI Hnn) as (v & a & ->). done.
Qed.

End RestoreThenIngest.

(** ** Concrete runs for the further properties *)

Module ExtraRuns.
Import Demo.
#[local] Existing Instance collaborators.

Section OnDemo.
#[local] Existing Instance golib.

(** The same three records, cut into batches in two ways. *)
Lemma batching_witness :
  non_nil (concat [[Some x63; None]; [Some x64; Some x65]]) =
  non_nil (concat [[None; Some x63; Some x64]; []; [None; Some x65]]) ∧
  ItemChanWorker [[Some x63; None]; [Some x64; Some x65]] fresh =
  ItemChanWorker [[None; Some x63; Some x64]; []; [None; Some x65]] fresh.
Proof.
  split; [reflexivity|].
  exact (worker_batching_irrelevant [[Some x63; None]; [Some x64; Some x65]]
           [[None; Some x63; Some x64]; []; [None; Some x65]] fresh eq_refl).
Defined.

Lemma keeps_wf_witness :
  wf busy ∧ wf (final (ItemChanWorker [[Some x63]] busy)).
Proof.
  split; [exact DemoRuns.wf_busy|].
  exact (worker_keeps_wf [[Some x63]] busy DemoRuns.wf_busy).
Defined.

(** A collection with a nil entry, which the demo encoder rejects. *)
Lemma hidden_encoding_error_witness :
  let s := mkState [x61] [addr 0; nilptr] [] [] [] in
  gob_Encode (snapshot_data s) = ([], Some "nil element") ∧
  os_Create "out" (fs s) = ([("out", [])], None) ∧
  os_Stat "out" (File_Write "out" [] [("out", [])]) = inr 0%Z ∧
  os_Stat "out" (File_Write "out" (Compress []) [("out", [])]) = inr 1%Z ∧
  ∃ s1 s2,
    saveAsBytes "out" s = Ret (0%Z, None) s1 ∧
    fs s1 = File_Write "out" [] [("out", [])] ∧
    saveAsBytesCompressed "out" s = Ret (1%Z, None) s2 ∧
    fs s2 = File_Write "out" (Compress []) [("out", [])] ∧
    out s1 = out s ++ ["error encoding nil element"].
Proof.
  intros s. repeat (split; [reflexivity|]).
  exact (save_hides_encoding_error "out" s [] "nil element" [("out", [])] 0 1
           eq_refl eq_refl eq_refl eq_refl).
Defined.

Lemma bootstrap_report_witness :
  loadAtStart "bytesz" "ignored" false busy =
    Ret tt (mkState [x61; x62; x63; x64; x65] [addr 2; addr 3; addr 4]
              [(0, x63); (1, x64); (2, x65)] (fs busy)
              ["retrieving with: bytesz, with filename: items.bytesz";
               "Loaded in memory amount: 3 time: "]) ∧
  last ["retrieving with: bytesz, with filename: items.bytesz";
        "Loaded in memory amount: 3 time: "] =
    Some ("Loaded in memory amount: " +:+ pretty 3 +:+ " time: ").
Proof.
  split; [reflexivity|].
  exact (bootstrap_reports_collection_size "bytesz" "ignored" false busy _ eq_refl).
Defined.

Lemma file_eqb_refl filename data x : file filename ((filename, data) :: x) = Some data.
Proof. simpl. by rewrite String.eqb_refl. Defined.

Lemma demo_file_contract filename data (x x1 : FS) :
  os_Create filename x = (x1, None) →
  os_Open filename (File_Write filename data x1) = inr (Reader data None).
Proof. intros _. simpl. unfold open. by rewrite file_eqb_refl. Defined.

Lemma demo_gzip_contract data :
  gzip_NewReader (bytes_NewReader (gzip_Writer false data)) = inr (Reader data None).
Proof. reflexivity. Defined.

(** Save the two records of [busy] compressed, load them back. *)
Lemma binary_save_then_load_witness :
  bytesz ≠ json ∧
  os_Create "snap" (fs busy) = (("snap", []) :: fs busy, None) ∧
  gob_Encode (snapshot_data busy) = ([x67; x61; x62], None) ∧
  ∃ r s1 s2,
    save bytesz "snap" busy = Ret r s1 ∧
    load bytesz "snap" s1 = Ret (2, None) s2 ∧
    item_values s2 = [Some x61; Some x62] ∧
    heap busy `prefix_of` heap s2 ∧
    (wf busy → ∀ l, addr l ∈ ITEMS s2 → addr l ∉ ITEMS busy).
Proof.
  split; [discriminate|]. split; [reflexivity|]. split; [reflexivity|].
  exact (binary_save_then_load demo_file_contract DemoRuns.demo_gob_contract
           demo_gzip_contract bytesz "snap" busy (("snap", []) :: fs busy)
           [x67; x61; x62] ltac:(discriminate) eq_refl eq_refl).
Defined.

Lemma demo_writefile_contract filename data (x x1 : FS) :
  ioutil_WriteFile filename data x = (x1, None) →
  os_Open filename x1 = inr (Reader data None).
Proof. simpl. intros [= <-]. unfold open. by rewrite file_eqb_refl. Defined.

Lemma demo_gzip_flush_contract data :
  gzip_NewReader (Reader (gzip_Writer true data) None) = inr (Reader data None).
Proof. reflexivity. Defined.

Lemma demo_json_contract (d : StoreData) (js : list byte) :
  json_Marshal d = (js, None) →
  ∀ h target,
    Forall (valid_ptr h) (Items target) →
    NoDup (cells (Items target)) →
    ∃ h' store,
      json_Unmarshal js h target = (h', store, None) ∧
      deref h' <$> Items store = ItemsData d.
Proof.
  simpl. unfold encode. destruct (present (ItemsData d)) as [bs|] eqn:E; [|done].
  intros [= <-] h target Hv Hnd.
  rewrite <- (DemoRuns.present_Some _ _ E).
  exact (DemoRuns.json_decode_holds bs h target Hv Hnd).
Defined.


(** [items.bytes] holds three records: the worker cannot run after it was
    loaded. *)
Lemma ingest_after_load_witness :
  ItemsData (gob_Decode (file_bytes "items.bytes" (fs busy))).1 ≠ [] ∧
  non_nil (concat [[None; Some x66]]) ≠ [] ∧
  is_Fatal (ItemChanWorker [[None; Some x66]]
              (final (loadAsBytes "items.bytes" busy))).
Proof.
  split; [discriminate|]. split; [discriminate|].
  exact (ingest_after_load_is_fatal "items.bytes" busy
           [[None; Some x66]] ltac:(discriminate) ltac:(discriminate)).
Defined.

End OnDemo.

Section OnReadOnly.
#[local] Existing Instance ReadOnly.golib.

(** On the disk that cannot be written, the JSON save returns the error
    of [ioutil.WriteFile] with size 0. *)
Lemma save_error_witness :
  save json "out" ReadOnly.stale =
    Ret (0%Z, Some "open out: permission denied") ReadOnly.stale ∧
  0%Z = 0%Z.
Proof.
  split; [reflexivity|].
  exact (save_error_has_zero_size json "out" ReadOnly.stale ReadOnly.stale 0
           "open out: permission denied" eq_refl).
Defined.

(** On the same disk the binary saves report the five bytes of the old
    file as written. *)
Lemma stale_size_witness :
  os_Create "out" (fs ReadOnly.stale) =
    (fs ReadOnly.stale, Some "open out: permission denied") ∧
  os_Stat "out" (fs ReadOnly.stale) = inr 5%Z ∧
  ∃ s1 s2,
    saveAsBytes "out" ReadOnly.stale = Ret (5%Z, None) s1 ∧
    fs s1 = fs ReadOnly.stale ∧
    saveAsBytesCompressed "out" ReadOnly.stale = Ret (5%Z, None) s2 ∧
    fs s2 = fs ReadOnly.stale ∧
    ("Unable to WriteToFile " +:+ "open out: permission denied") ∈ out s1 ∧
    ("Unable to WriteToFile " +:+ "open out: permission denied") ∈ out s2.
Proof.
  split; [reflexivity|]. split; [reflexivity|].
  exact (failed_create_reports_stale_size "out" ReadOnly.stale (fs ReadOnly.stale)
           "open out: permission denied" 5 eq_refl eq_refl).
Defined.

End OnReadOnly.

End ExtraRuns.
